(** * Budget Explorer (orcamento): a shallow embedding and its properties

    The development has two layers.

    - The client layer embeds the functions of the three Next.js pages
      ([frontend/app/documents/[id]/page.tsx], the category page and the
      item page): [getSideLabel], [formatCurrency], [formatPercentage],
      the category total, the active-job lookup and the dashboard sort.
    - The server layer (item validator, aggregator, job orchestrator and
      the items-by-category query) belongs to the Python backend; it is
      modelled from the design document, and every such definition says
      so.

    Numbers.  Where a page computes with a JavaScript [number] (the category
    total, the percentage) the number is an IEEE 754 double, embedded as the
    primitive [float] with its rounding addition, multiplication and
    division; [jsnum] is the exact value of a double, which [toFixed]
    prints.  Where an amount is only stored, compared or sorted it is an
    integer [Z], a nullable one [option Z]. *)

From Stdlib Require Import ZArith QArith Qround Qabs List String Ascii Bool Lia.
From Stdlib Require Import Permutation Sorted DecimalString Lqa Floats.
Import ListNotations.

Local Open Scope string_scope.
Local Open Scope Z_scope.

(** ** Shared helpers *)

(** Decimal rendering of a non-negative integer. *)
Definition dec (n : Z) : string :=
  NilZero.string_of_uint (N.to_uint (Z.to_N n)).

(** Literal, case-sensitive substring test: [needle] occurs in [hay] at
    some position. *)
Fixpoint is_substring (needle hay : string) : bool :=
  prefix needle hay ||
  match hay with
  | EmptyString => false
  | String _ rest => is_substring needle rest
  end.

(** Stable insertion sort, parameterised by a "comes no later than" test.
    An element is placed in front of the first element it is [leb] to, so
    elements that compare equal keep their input order. *)
Section InsertionSort.
Context {A : Type} (leb : A -> A -> bool).

Fixpoint insert_sorted (x : A) (l : list A) : list A :=
  match l with
  | [] => [x]
  | y :: l' => if leb x y then x :: y :: l' else y :: insert_sorted x l'
  end.

Fixpoint stable_sort (l : list A) : list A :=
  match l with
  | [] => []
  | x :: l' => insert_sorted x (stable_sort l')
  end.
End InsertionSort.

(** [Array.prototype.sort(compareFn)]: the comparator returns a number,
    negative or zero when its first argument may stay in front.  The sort is
    stable (ECMAScript 2019). *)
Definition js_sort {A : Type} (compareFn : A -> A -> Z) (l : list A) : list A :=
  stable_sort (fun a b => compareFn a b <=? 0) l.

(** [Array.prototype.find]: the first element satisfying the predicate, or
    [undefined] (here [None]). *)
Definition js_find {A : Type} (p : A -> bool) (l : list A) : option A :=
  List.find p l.

(** ** URI components

    The ECMAScript functions [encodeURIComponent] and [decodeURIComponent].
    A string stands for the UTF-8 bytes of a well-formed JavaScript string,
    so a character is a byte.  [None] is a thrown [URIError]. *)

Definition byte_in (lo hi : N) (c : ascii) : bool :=
  ((lo <=? N_of_ascii c) && (N_of_ascii c <=? hi))%N.

(** The characters that are never escaped: letters, digits and the marks
    [- _ . ! ~ * ' ( )]. *)
Definition is_unreserved (c : ascii) : bool :=
  byte_in 65 90 c || byte_in 97 122 c || byte_in 48 57 c ||
  existsb (Ascii.eqb c) ["-"; "_"; "."; "!"; "~"; "*"; "'"; "("; ")"]%char.

(** Upper-case hexadecimal digit of a value below 16. *)
Definition hex_digit (n : N) : ascii :=
  if (n <? 10)%N then ascii_of_N (48 + n) else ascii_of_N (55 + n).

Definition percent_encode (c : ascii) : string :=
  String "%" (String (hex_digit (N_of_ascii c / 16))
                     (String (hex_digit (N_of_ascii c mod 16)) "")).

(** Every byte of the UTF-8 form that is not an unreserved character is
    written as [%XX]. *)
Fixpoint encodeURIComponent (s : string) : string :=
  match s with
  | EmptyString => ""
  | String c rest =>
      (if is_unreserved c then String c "" else percent_encode c)
        ++ encodeURIComponent rest
  end.

Definition hex_value (c : ascii) : option N :=
  if byte_in 48 57 c then Some (N_of_ascii c - 48)%N
  else if byte_in 65 70 c then Some (N_of_ascii c - 55)%N
  else if byte_in 97 102 c then Some (N_of_ascii c - 87)%N
  else None.

(** First pass of decoding: every [%] must be followed by two hexadecimal
    digits and stands for one byte; the result marks the bytes that came
    from an escape. *)
Fixpoint unescape (s : string) : option (list (bool * ascii)) :=
  match s with
  | EmptyString => Some []
  | String c rest =>
      if Ascii.eqb c "%" then
        match rest with
        | String h (String l rest') =>
            match hex_value h, hex_value l with
            | Some a, Some b =>
                option_map (cons (true, ascii_of_N (16 * a + b)))
                           (unescape rest')
            | _, _ => None
            end
        | _ => None
        end
      else option_map (cons (false, c)) (unescape rest)
  end.

Definition continuation (c : ascii) : bool := byte_in 128 191 c.

(** Well-formed UTF-8 sequences of two, three and four bytes. *)
Definition well_formed2 (b0 b1 : ascii) : bool :=
  byte_in 194 223 b0 && continuation b1.

Definition well_formed3 (b0 b1 b2 : ascii) : bool :=
  ((byte_in 224 224 b0 && byte_in 160 191 b1) ||
   (byte_in 225 236 b0 && continuation b1) ||
   (byte_in 237 237 b0 && byte_in 128 159 b1) ||
   (byte_in 238 239 b0 && continuation b1)) && continuation b2.

Definition well_formed4 (b0 b1 b2 b3 : ascii) : bool :=
  ((byte_in 240 240 b0 && byte_in 144 191 b1) ||
   (byte_in 241 243 b0 && continuation b1) ||
   (byte_in 244 244 b0 && byte_in 128 143 b1)) &&
  continuation b2 && continuation b3.

(** Second pass of decoding.  An escaped byte below 128 is that character.
    An escaped byte from 128 on must start a sequence of two to four escaped
    bytes (by its leading one bits) that is well-formed UTF-8.  Characters
    that were not escaped are kept. *)
Fixpoint assemble (l : list (bool * ascii)) : option string :=
  match l with
  | [] => Some ""
  | (false, c) :: r => option_map (String c) (assemble r)
  | (true, c) :: r =>
      if (N_of_ascii c <? 128)%N then option_map (String c) (assemble r)
      else if byte_in 192 223 c then
        match r with
        | (true, c1) :: r1 =>
            if well_formed2 c c1
            then option_map (fun t => String c (String c1 t)) (assemble r1)
            else None
        | _ => None
        end
      else if byte_in 224 239 c then
        match r with
        | (true, c1) :: (true, c2) :: r2 =>
            if well_formed3 c c1 c2
            then option_map (fun t => String c (String c1 (String c2 t)))
                            (assemble r2)
            else None
        | _ => None
        end
      else if byte_in 240 247 c then
        match r with
        | (true, c1) :: (true, c2) :: (true, c3) :: r3 =>
            if well_formed4 c c1 c2 c3
            then option_map
                   (fun t => String c (String c1 (String c2 (String c3 t))))
                   (assemble r3)
            else None
        | _ => None
        end
      else None
  end.

Definition decodeURIComponent (s : string) : option string :=
  match unescape s with
  | Some l => assemble l
  | None => None
  end.

(** The byte strings that are the UTF-8 form of some JavaScript string. *)
Fixpoint well_formed_utf8 (s : string) : bool :=
  match s with
  | EmptyString => true
  | String c r =>
      if (N_of_ascii c <? 128)%N then well_formed_utf8 r
      else
        match r with
        | String c1 r1 =>
            (well_formed2 c c1 && well_formed_utf8 r1) ||
            match r1 with
            | String c2 r2 =>
                (well_formed3 c c1 c2 && well_formed_utf8 r2) ||
                match r2 with
                | String c3 r3 =>
                    well_formed4 c c1 c2 c3 && well_formed_utf8 r3
                | EmptyString => false
                end
            | EmptyString => false
            end
        | EmptyString => false
        end
  end.

(** ** Client data (the TypeScript interfaces)

    Field names are the ones of the interfaces, except [id] of [ImportJob]
    ([job_id]) and [category], [document_id], [year] of the summaries, which
    carry a prefix because record fields share one name space. *)

Record BudgetItem := {
  id : string;
  document_id : string;
  year : Z;
  side : string;
  category : string;
  description_original : string;
  value : option Z;
  unit : string;
  page_number : Z;
  evidence_text : string;
  explanation : string
}.

Record CategorySummary := {
  cs_category : string;
  total_value : Z;
  item_count : Z
}.

Record DocumentSummary := {
  ds_document_id : string;
  ds_year : Z;
  revenue_total : Z;
  expense_total : Z;
  revenue_by_category : list CategorySummary;
  expense_by_category : list CategorySummary
}.

Record ImportJob := {
  job_id : string;
  status : string;
  progress : Z;
  error_message : option string
}.

(** How a [fetch] followed by [res.json()] ends inside the [try] blocks of
    the pages: a response with [res.ok] and its body (taken at its declared
    type), a response without [res.ok], or a thrown error, which the [catch]
    logs. *)
Inductive Response (A : Type) : Type :=
| Ok (data : A)
| NotOk
| Threw.

Arguments Ok {A} data.
Arguments NotOk {A}.
Arguments Threw {A}.

(** ** The item page, [frontend/app/items/[id]/page.tsx] *)

Module ItemPage.

(** [numberFormat] stands for
    [new Intl.NumberFormat('pt-PT', {style: 'currency', currency: 'EUR',
    minimumFractionDigits: 0, maximumFractionDigits: 0}).format], a
    platform function. *)
Definition formatCurrency (numberFormat : Z -> string)
           (value : option Z) (unit : string) : string :=
  match value with
  | None => "N/A"
  | Some v => numberFormat v
  end.

Definition getSideLabel (side : string) : string :=
  if String.eqb side "REVENUE" then "RECEITA" else "DESPESA".

(** The link back to the category,
    [`/documents/${item.document_id}/category/${encodeURIComponent(item.category)}`]. *)
Definition back_href (item : BudgetItem) : string :=
  "/documents/" ++ document_id item ++ "/category/" ++
  encodeURIComponent (category item).

End ItemPage.

(** ** The category page,
    [frontend/app/documents/[id]/category/[category]/page.tsx] *)

Module CategoryPage.

Definition formatCurrency (numberFormat : Z -> string)
           (value : option Z) (unit : string) : string :=
  match value with
  | None => "N/A"
  | Some v => let numValue := v in numberFormat numValue
  end.

(** [item.value || 0]: [null] and the falsy number [0] both give [0]. *)
Definition value_or_zero (v : option Z) : Z :=
  match v with
  | None => 0
  | Some x => if x =? 0 then 0 else x
  end.

(** [items.reduce((sum, item) => sum + (item.value || 0), 0)] on integer
    amounts; it agrees with the code as long as no addition rounds
    ([total_of_values] is the reduce on doubles). *)
Definition total (items : list BudgetItem) : Z :=
  fold_left (fun sum item => sum + value_or_zero (value item)) items 0.

(** [item.value || 0] on a double: [null] and the falsy numbers ([0], [-0],
    [NaN]) give [0]. *)
Definition or_zero (v : option float) : float :=
  match v with
  | None => 0%float
  | Some x => if PrimFloat.eqb x 0 || PrimFloat.is_nan x then 0%float else x
  end.

(** [items.reduce((sum, item) => sum + (item.value || 0), 0)] in the
    arithmetic of the code: the [value] fields of the items, in list order,
    are added as doubles. *)
Definition total_of_values (values : list (option float)) : float :=
  fold_left (fun sum v => (sum + or_zero v)%float) values 0%float.

(** The header line shows [items.length] next to the total. *)
Definition shown_count (items : list BudgetItem) : Z :=
  Z.of_nat (List.length items).

Definition header (numberFormat : Z -> string) (items : list BudgetItem)
  : Z * string :=
  (shown_count items, formatCurrency numberFormat (Some (total items)) "EUR").

(** The [<option value=...>] entries of the sort selector, in order, and
    the initial [useState('value')]. *)
Definition sort_options : list string :=
  ["value"; "page_number"; "description"].

Definition initial_sortBy : string := "value".

(** Query string sent by [fetchItems]. *)
Definition sort_query (sortBy : string) : string :=
  "?sort_by=" ++ sortBy.

(** [decodeURIComponent(params.category as string)]; [None] when it
    throws. *)
Definition category_of_param (param : string) : option string :=
  decodeURIComponent param.

(** The address [fetchItems] requests. *)
Definition items_url (api_base documentId category sortBy : string) : string :=
  api_base ++ "/api/documents/" ++ documentId ++ "/categories/" ++
  encodeURIComponent category ++ "?sort_by=" ++ sortBy.

End CategoryPage.

(** ** The document dashboard, [frontend/app/documents/[id]/page.tsx] *)

(** The exact value of a double: a rational, or one of the three
    non-finite values. *)
Inductive jsnum : Type :=
| Finite (q : Q)
| PosInfinity
| NegInfinity
| NaN.

Definition exact_value (x : float) : jsnum :=
  match Prim2SF x with
  | S754_nan => NaN
  | S754_infinity false => PosInfinity
  | S754_infinity true => NegInfinity
  | S754_zero _ => Finite 0
  | S754_finite sign m e =>
      Finite (inject_Z (if sign then Zneg m else Zpos m) * Qpower (2 # 1) e)
  end.

(** [a / b] on doubles: the quotient rounded to the nearest double.  A zero
    divisor does not raise in JavaScript; it yields [NaN] or an infinity. *)
Definition js_div (a b : float) : float := (a / b)%float.

(** [a * b] on doubles: the product rounded to the nearest double. *)
Definition js_mul (a b : float) : float := (a * b)%float.

(** [Number.prototype.toFixed(1)], on the exact value of the double it is
    called on.  Non-finite numbers print by name.  A finite [x] is printed
    as sign, then the integer [n] closest to
    [10 * |x|] (the larger one on a tie) with a point before its last
    digit.  From [1e21] on the method falls back to [Number::toString],
    which is left as the parameter [numberToString]. *)
Definition toFixed1 (numberToString : Q -> string) (x : jsnum) : string :=
  match x with
  | NaN => "NaN"
  | PosInfinity => "Infinity"
  | NegInfinity => "-Infinity"
  | Finite q =>
      let s := if Qle_bool 0 q then "" else "-" in
      let a := Qabs q in
      if Qle_bool (inject_Z (10 ^ 21)) a then s ++ numberToString a
      else
        let n := Qfloor (a * inject_Z 10 + (1 # 2)) in
        s ++ dec (n / 10) ++ "." ++ dec (n mod 10)
  end.

Module DocumentPage.

Definition formatCurrency (numberFormat : Z -> string) (value : Z) : string :=
  numberFormat value.

Definition formatPercentage (numberToString : Q -> string)
           (value total : float) : string :=
  if PrimFloat.eqb total 0 then "0%"
  else toFixed1 numberToString
                (exact_value (js_mul (js_div value total) 100)) ++ "%".

(** [j.status === 'PENDING' || j.status === 'RUNNING'] *)
Definition is_active (j : ImportJob) : bool :=
  String.eqb (status j) "PENDING" || String.eqb (status j) "RUNNING".

(** [jobs.find(j => ...)] *)
Definition activeJob (jobs : list ImportJob) : option ImportJob :=
  js_find is_active jobs.

Definition getSideLabel (side : string) : string :=
  if String.eqb side "REVENUE" then "RECEITA" else "DESPESA".

(** [(a, b) => b.total_value - a.total_value] *)
Definition by_total_desc (a b : CategorySummary) : Z :=
  total_value b - total_value a.

(** The two lists the dashboard maps over:
    [summary.revenue_by_category.sort(...)] and
    [summary.expense_by_category.sort(...)]. *)
Definition shown_revenue (summary : DocumentSummary) : list CategorySummary :=
  js_sort by_total_desc (revenue_by_category summary).

Definition shown_expense (summary : DocumentSummary) : list CategorySummary :=
  js_sort by_total_desc (expense_by_category summary).

(** The last segment of a category link and the link itself,
    [`/documents/${documentId}/category/${encodeURIComponent(cat.category)}`]. *)
Definition category_segment (cat : CategorySummary) : string :=
  encodeURIComponent (cs_category cat).

Definition category_href (documentId : string) (cat : CategorySummary) : string :=
  "/documents/" ++ documentId ++ "/category/" ++ category_segment cat.

(** [Array.prototype.sort] sorts the array it is called on, so a render
    leaves both category lists of the summary object sorted. *)
Definition sorted_in_place (s : DocumentSummary) : DocumentSummary :=
  {| ds_document_id := ds_document_id s; ds_year := ds_year s;
     revenue_total := revenue_total s; expense_total := expense_total s;
     revenue_by_category := shown_revenue s;
     expense_by_category := shown_expense s |}.

(** The "A Processar Documento" box: status and progress of the active job,
    and its error message when that is a non-empty text
    ([activeJob.error_message && ...]). *)
Record Banner := {
  shown_status : string;
  shown_progress : Z;
  shown_error : option string
}.

Definition truthy_text (m : option string) : option string :=
  match m with
  | Some (String c r) => Some (String c r)
  | _ => None
  end.

Definition processing_banner (job_list : list ImportJob) : option Banner :=
  match activeJob job_list with
  | Some j =>
      Some {| shown_status := status j; shown_progress := progress j;
              shown_error := truthy_text (error_message j) |}
  | None => None
  end.

(** The state of the page ([useState]). *)
Record PageState := {
  summary : option DocumentSummary;
  loading : bool;
  jobs : list ImportJob;
  archiving : bool
}.

Definition initial_state : PageState :=
  {| summary := None; loading := true; jobs := []; archiving := false |}.

(** [fetchSummary]: [setSummary(data)] on an ok response, and
    [setLoading(false)] in the [finally] block. *)
Definition fetchSummary_done (r : Response DocumentSummary) (st : PageState)
  : PageState :=
  {| summary := match r with Ok data => Some data | _ => summary st end;
     loading := false; jobs := jobs st; archiving := archiving st |}.

(** [fetchJobs]: [setJobs(data)] on an ok response. *)
Definition fetchJobs_done (r : Response (list ImportJob)) (st : PageState)
  : PageState :=
  {| summary := summary st; loading := loading st;
     jobs := match r with Ok data => data | _ => jobs st end;
     archiving := archiving st |}.

(** A request of the page that has finished.  The first two are issued on
    mount and every two seconds by the polling interval. *)
Inductive Completion : Type :=
| SummaryDone (r : Response DocumentSummary)
| JobsDone (r : Response (list ImportJob)).

Definition complete (st : PageState) (c : Completion) : PageState :=
  match c with
  | SummaryDone r => fetchSummary_done r st
  | JobsDone r => fetchJobs_done r st
  end.

Definition poll (completions : list Completion) (st : PageState) : PageState :=
  fold_left complete completions st.

(** What the component returns: the loading text, the not-found text, or
    the dashboard of a summary with the processing box. *)
Inductive Screen : Type :=
| LoadingScreen
| NotFoundScreen
| DashboardScreen (s : DocumentSummary) (box : option Banner).

Definition render (st : PageState) : Screen :=
  if loading st then LoadingScreen
  else
    match summary st with
    | None => NotFoundScreen
    | Some s => DashboardScreen s (processing_banner (jobs st))
    end.

End DocumentPage.

(** * The server side

    The validator, the aggregator, the job orchestrator and the query
    endpoints are Python code of the backend ([backend/app/tasks.py],
    [backend/app/main.py]).  They are modelled from the design document
    (sections 3, 4.3, 4.4, 4.5 and 6). *)

Module Server.

(** *** Taxonomy (section 6) *)

Inductive Side : Type := REVENUE | EXPENSE.

Definition side_name (s : Side) : string :=
  match s with REVENUE => "REVENUE" | EXPENSE => "EXPENSE" end.

Definition parse_side (s : string) : option Side :=
  if String.eqb s "REVENUE" then Some REVENUE
  else if String.eqb s "EXPENSE" then Some EXPENSE
  else None.

(** The fixed taxonomy, as [README.md] and section 6 list it. *)
Definition taxonomy (s : Side) : list string :=
  match s with
  | REVENUE =>
      ["Personal taxes"; "Corporate taxes"; "Taxes on purchases";
       "Social security contributions"; "Other revenue"]
  | EXPENSE =>
      ["Health"; "Education"; "Pensions & social support";
       "Running the government"; "Security & defense"; "Justice";
       "Infrastructure & environment"; "Public debt"]
  end.

Definition in_list (x : string) (l : list string) : bool :=
  existsb (String.eqb x) l.

(** *** Pages and candidate items (section 3) *)

Record Page := {
  page_document : string;
  page_no : Z;
  page_text : string
}.

(** Modelled from the spec: what the extraction capability returns for a
    section, an untrusted, loosely typed payload (sections 6 and 9). *)
Record CandidateItem := {
  c_side : string;
  c_category : string;
  c_description : string;
  c_value : option Z;
  c_unit : string;
  c_page_number : Z;
  c_evidence_text : string;
  c_explanation : string
}.

Inductive RejectionReason : Type :=
| UnknownCategory
| PageOutOfRange
| EvidenceNotFound
| MissingField.

Definition non_empty (s : string) : bool :=
  match s with EmptyString => false | String _ _ => true end.

Definition find_page (n : Z) (sourcePages : list Page) : option Page :=
  List.find (fun p => page_no p =? n) sourcePages.

(** Modelled from the spec: the Item Validator of section 4.3, whose code
    is in the backend.  The four checks run in the order (a) to (d); a
    failed check is returned as data. *)
Definition validate (c : CandidateItem) (sourcePages : list Page)
  : CandidateItem + RejectionReason :=
  let known_category :=
    match parse_side (c_side c) with
    | Some sd => in_list (c_category c) (taxonomy sd)
    | None => false
    end in
  let in_range :=
    (1 <=? c_page_number c) &&
    (c_page_number c <=? Z.of_nat (List.length sourcePages)) in
  let evidence_found :=
    match c_value c with
    | None => true
    | Some _ =>
        match find_page (c_page_number c) sourcePages with
        | Some p => non_empty (c_evidence_text c) &&
                    is_substring (c_evidence_text c) (page_text p)
        | None => false
        end
    end in
  if negb known_category then inr UnknownCategory
  else if negb in_range then inr PageOutOfRange
  else if negb evidence_found then inr EvidenceNotFound
  else if negb (non_empty (c_description c) && non_empty (c_explanation c))
       then inr MissingField
  else inl c.

(** Modelled from the spec: what the validation stage keeps of a section's
    candidates (section 4.3).  Rejected candidates are dropped, the others
    kept in order. *)
Fixpoint validated (cs : list CandidateItem) (sourcePages : list Page)
  : list CandidateItem :=
  match cs with
  | [] => []
  | c :: cs' =>
      match validate c sourcePages with
      | inl v => v :: validated cs' sourcePages
      | inr _ => validated cs' sourcePages
      end
  end.

(** *** Import jobs (sections 3 and 4.4) *)

Inductive JobStatus : Type := PENDING | RUNNING | COMPLETED | FAILED.

Definition status_name (st : JobStatus) : string :=
  match st with
  | PENDING => "PENDING"
  | RUNNING => "RUNNING"
  | COMPLETED => "COMPLETED"
  | FAILED => "FAILED"
  end.

Definition terminal (st : JobStatus) : bool :=
  match st with
  | COMPLETED | FAILED => true
  | PENDING | RUNNING => false
  end.

(** Modelled from the spec: where the owning worker stands in the pipeline
    of section 4.4.  [AtSections n k ok]:
    [k] of the [n] detected sections are handled, [ok] of them without
    exhausting the retries. *)
Inductive Stage : Type :=
| AtExtraction
| AtDetection
| AtSections (n k ok : nat).

Record JobRow := {
  row_id : nat;
  row_document : string;
  row_status : JobStatus;
  row_progress : Z;
  row_error : option string;
  row_stage : Stage
}.

Definition with_status (st : JobStatus) (r : JobRow) : JobRow :=
  {| row_id := row_id r; row_document := row_document r; row_status := st;
     row_progress := row_progress r; row_error := row_error r;
     row_stage := row_stage r |}.

Definition with_progress (p : Z) (r : JobRow) : JobRow :=
  {| row_id := row_id r; row_document := row_document r;
     row_status := row_status r; row_progress := p;
     row_error := row_error r; row_stage := row_stage r |}.

Definition with_stage (g : Stage) (r : JobRow) : JobRow :=
  {| row_id := row_id r; row_document := row_document r;
     row_status := row_status r; row_progress := row_progress r;
     row_error := row_error r; row_stage := g |}.

Definition failed_with (msg : string) (r : JobRow) : JobRow :=
  {| row_id := row_id r; row_document := row_document r;
     row_status := FAILED; row_progress := row_progress r;
     row_error := Some msg; row_stage := row_stage r |}.

Definition new_job (jid : nat) (doc : string) : JobRow :=
  {| row_id := jid; row_document := doc; row_status := PENDING;
     row_progress := 0; row_error := None; row_stage := AtExtraction |}.

(** Modelled from the spec: what can happen to the system.  The first two
    are calls of the public interface (section 6), the others are the steps
    of a worker on one job (sections 4.4, 5 and 7). *)
Inductive Event : Type :=
| Upload (doc : string) (fiscal_year : Z)
| Reimport (doc : string)
| Claim (job : nat)
| Extracted (job : nat) (texts : list string)
| Unreadable (job : nat)
| Detected (job : nat) (sections : nat)
| SectionExtracted (job : nat) (candidates : list CandidateItem)
| SectionSkipped (job : nat)
| Abort (job : nat) (cause : string).

(** Modelled from the spec: the progress after [k] of [n] sections, linear
    between 20 and 100 (section 4.4). *)
Definition interpolate (n k : nat) : Z :=
  20 + 80 * Z.of_nat k / Z.of_nat n.

(** Modelled from the spec: one more section is handled (section 4.4).
    Before the last section the progress is interpolated; with the last one
    the job ends: [FAILED] when every section exhausted its retries, else
    [COMPLETED] at 100. *)
Definition section_handled (n k ok : nat) (r : JobRow) : JobRow :=
  if (S k <? n)%nat then
    with_stage (AtSections n (S k) ok) (with_progress (interpolate n (S k)) r)
  else if (ok =? 0)%nat then
    failed_with "exhausted retries on every section" r
  else
    with_stage (AtSections n (S k) ok)
               (with_status COMPLETED (with_progress 100 r)).

(** Modelled from the spec: the job state machine of section 4.4, whose
    code is the worker task of the backend.  [None]: the event is not
    enabled for a job in this state. *)
Definition job_step (e : Event) (r : JobRow) : option JobRow :=
  match row_status r, e with
  | PENDING, Claim _ => Some (with_status RUNNING r)
  | RUNNING, Extracted _ (_ :: _) =>
      match row_stage r with
      | AtExtraction => Some (with_stage AtDetection (with_progress 10 r))
      | _ => None
      end
  | RUNNING, Unreadable _ =>
      match row_stage r with
      | AtExtraction => Some (failed_with "UnreadableDocument" r)
      | _ => None
      end
  | RUNNING, Detected _ n =>
      match row_stage r with
      | AtDetection =>
          if (0 <? n)%nat
          then Some (with_stage (AtSections n 0 0) (with_progress 20 r))
          else None
      | _ => None
      end
  | RUNNING, SectionExtracted _ _ =>
      match row_stage r with
      | AtSections n k ok =>
          if (k <? n)%nat then Some (section_handled n k (S ok) r) else None
      | _ => None
      end
  | RUNNING, SectionSkipped _ =>
      match row_stage r with
      | AtSections n k ok =>
          if (k <? n)%nat then Some (section_handled n k ok r) else None
      | _ => None
      end
  | RUNNING, Abort _ cause => Some (failed_with cause r)
  | _, _ => None
  end.

(** *** The persistent store and the orchestrator *)

Record Store := {
  documents : list (string * Z);
  pages : list Page;
  items : list BudgetItem;
  jobs : list JobRow;
  next_item : nat
}.

Definition empty_store : Store :=
  {| documents := []; pages := []; items := []; jobs := []; next_item := 0 |}.

Definition known_document (doc : string) (s : Store) : bool :=
  existsb (fun d => String.eqb (fst d) doc) (documents s).

Definition year_of (doc : string) (s : Store) : Z :=
  match List.find (fun d => String.eqb (fst d) doc) (documents s) with
  | Some d => snd d
  | None => 0
  end.

Definition pages_of (doc : string) (s : Store) : list Page :=
  filter (fun p => String.eqb (page_document p) doc) (pages s).

Definition jobs_of (doc : string) (s : Store) : list JobRow :=
  filter (fun r => String.eqb (row_document r) doc) (jobs s).

Definition find_job (j : nat) (s : Store) : option JobRow :=
  List.find (fun r => (row_id r =? j)%nat) (jobs s).

Definition non_terminal (r : JobRow) : bool := negb (terminal (row_status r)).

Definition is_running (r : JobRow) : bool :=
  match row_status r with RUNNING => true | _ => false end.

(** Modelled from the spec: the text extractor numbers the pages of a
    document from 1 (section 4.1). *)
Fixpoint number_pages (doc : string) (first : Z) (texts : list string)
  : list Page :=
  match texts with
  | [] => []
  | t :: texts' =>
      {| page_document := doc; page_no := first; page_text := t |}
        :: number_pages doc (first + 1) texts'
  end.

Definition make_item (ident : nat) (doc : string) (yr : Z) (c : CandidateItem)
  : BudgetItem :=
  {| id := dec (Z.of_nat ident); document_id := doc; year := yr;
     side := c_side c; category := c_category c;
     description_original := c_description c; value := c_value c;
     unit := c_unit c; page_number := c_page_number c;
     evidence_text := c_evidence_text c; explanation := c_explanation c |}.

Fixpoint make_items (ident : nat) (doc : string) (yr : Z)
         (cs : list CandidateItem) : list BudgetItem :=
  match cs with
  | [] => []
  | c :: cs' => make_item ident doc yr c :: make_items (S ident) doc yr cs'
  end.

(** The job with identity [j] takes the step [e]; other rows are kept. *)
Definition stepped (j : nat) (e : Event) (r : JobRow) : JobRow :=
  if (row_id r =? j)%nat then
    match job_step e r with Some r' => r' | None => r end
  else r.

Definition update_job (j : nat) (e : Event) (rows : list JobRow) : list JobRow :=
  map (stepped j e) rows.

Definition event_job (e : Event) : option nat :=
  match e with
  | Upload _ _ | Reimport _ => None
  | Claim j | Extracted j _ | Unreadable j | Detected j _
  | SectionExtracted j _ | SectionSkipped j | Abort j _ => Some j
  end.

(** Modelled from the spec: the data written besides the job row (sections
    3 and 4.4): the pages after extraction, created once per document, and
    the validated items after a section. *)
Definition side_effects (e : Event) (doc : string) (s : Store) : Store :=
  match e with
  | Extracted _ texts =>
      match pages_of doc s with
      | [] =>
          {| documents := documents s;
             pages := pages s ++ number_pages doc 1 texts;
             items := items s; jobs := jobs s; next_item := next_item s |}
      | _ :: _ => s
      end
  | SectionExtracted _ candidates =>
      let accepted := validated candidates (pages_of doc s) in
      {| documents := documents s; pages := pages s;
         items := items s ++
                  make_items (next_item s) doc (year_of doc s) accepted;
         jobs := jobs s;
         next_item := (next_item s + List.length accepted)%nat |}
  | _ => s
  end.

Definition with_jobs (rows : list JobRow) (s : Store) : Store :=
  {| documents := documents s; pages := pages s; items := items s;
     jobs := rows; next_item := next_item s |}.

(** Modelled from the spec: the Job Orchestrator of sections 4.4 and 5
    and the public calls [upload] and [reimport] of section 6, whose code
    is in the backend.  [upload] creates a document with its first job.
    [reimport] of a known document deletes the document's items and queues
    a fresh [PENDING] job, whatever the state of the earlier jobs.  A worker
    claims a [PENDING] job only if no other job of the document is
    [RUNNING].  [None]: the event is refused. *)
Definition step (e : Event) (s : Store) : option Store :=
  match e with
  | Upload doc yr =>
      if known_document doc s then None
      else Some
        {| documents := documents s ++ [(doc, yr)]; pages := pages s;
           items := items s;
           jobs := jobs s ++ [new_job (List.length (jobs s)) doc];
           next_item := next_item s |}
  | Reimport doc =>
      if known_document doc s
      then Some
        {| documents := documents s; pages := pages s;
           items := filter (fun it => negb (String.eqb (document_id it) doc))
                           (items s);
           jobs := jobs s ++ [new_job (List.length (jobs s)) doc];
           next_item := next_item s |}
      else None
  | Claim j =>
      match find_job j s with
      | Some r =>
          match job_step e r with
          | Some _ =>
              if existsb is_running (jobs_of (row_document r) s) then None
              else Some (with_jobs (update_job j e (jobs s)) s)
          | None => None
          end
      | None => None
      end
  | _ =>
      match event_job e with
      | Some j =>
          match find_job j s with
          | Some r =>
              match job_step e r with
              | Some _ =>
                  let s' := side_effects e (row_document r) s in
                  Some (with_jobs (update_job j e (jobs s')) s')
              | None => None
              end
          | None => None
          end
      | None => None
      end
  end.

(** A refused event leaves the store as it is. *)
Definition apply_event (s : Store) (e : Event) : Store :=
  match step e s with Some s' => s' | None => s end.

Definition run (events : list Event) (s : Store) : Store :=
  fold_left apply_event events s.

(** *** Read endpoints (section 6) *)

Definition job_to_api (r : JobRow) : ImportJob :=
  {| job_id := dec (Z.of_nat (row_id r)); status := status_name (row_status r);
     progress := row_progress r; error_message := row_error r |}.

(** Modelled from the spec: [getJobs(documentId)], the job history of a
    document as served by [/api/documents/{id}/import-jobs]. *)
Definition getJobs (doc : string) (s : Store) : list ImportJob :=
  map job_to_api (jobs_of doc s).

(** Modelled from the spec: [getItem(itemId)]. *)
Definition getItem (ident : string) (s : Store) : option BudgetItem :=
  List.find (fun it => String.eqb (id it) ident) (items s).

Inductive SortKey : Type := ByValue | ByPageNumber | ByDescription.

Definition parse_sort_key (sort_by : string) : option SortKey :=
  if String.eqb sort_by "value" then Some ByValue
  else if String.eqb sort_by "page_number" then Some ByPageNumber
  else if String.eqb sort_by "description" then Some ByDescription
  else None.

(** Modelled from the spec: the three orders of section 6.  Descending by
    value; the spec does not place the items without a value, here they
    come last. *)
Definition value_desc (a b : BudgetItem) : bool :=
  match value a, value b with
  | Some x, Some y => y <=? x
  | Some _, None => true
  | None, Some _ => false
  | None, None => true
  end.

Definition page_asc (a b : BudgetItem) : bool :=
  page_number a <=? page_number b.

Definition description_asc (a b : BudgetItem) : bool :=
  String.leb (description_original a) (description_original b).

Definition sort_order (k : SortKey) : BudgetItem -> BudgetItem -> bool :=
  match k with
  | ByValue => value_desc
  | ByPageNumber => page_asc
  | ByDescription => description_asc
  end.

Definition in_category (doc cat : string) (it : BudgetItem) : bool :=
  String.eqb (document_id it) doc && String.eqb (category it) cat.

(** Modelled from the spec: [getItemsByCategory(documentId, category,
    sortKey)] of section 6, the query behind
    [/api/documents/{id}/categories/{category}?sort_by=...]. *)
Definition getItemsByCategory (doc cat : string) (k : SortKey) (s : Store)
  : list BudgetItem :=
  stable_sort (sort_order k) (filter (in_category doc cat) (items s)).

(** The endpoint as the client calls it; an unknown [sort_by] is not
    served. *)
Definition categories_endpoint (doc cat sort_by : string) (s : Store)
  : option (list BudgetItem) :=
  option_map (fun k => getItemsByCategory doc cat k s) (parse_sort_key sort_by).

(** *** Aggregator (section 4.5) *)

Definition null_as_zero (v : option Z) : Z :=
  match v with Some x => x | None => 0 end.

Fixpoint sum_values (l : list BudgetItem) : Z :=
  match l with
  | [] => 0
  | it :: l' => null_as_zero (value it) + sum_values l'
  end.

Definition on_side (sd : Side) (it : BudgetItem) : bool :=
  String.eqb (side it) (side_name sd).

Definition on_side_in (sd : Side) (cat : string) (it : BudgetItem) : bool :=
  on_side sd it && String.eqb (category it) cat.

Definition category_summary (sd : Side) (its : list BudgetItem) (cat : string)
  : CategorySummary :=
  let group := filter (on_side_in sd cat) its in
  {| cs_category := cat; total_value := sum_values group;
     item_count := Z.of_nat (List.length group) |}.

(** Modelled from the spec: the grouping of section 4.5, one entry per
    category of the side that has at least one item. *)
Definition by_category (sd : Side) (its : list BudgetItem)
  : list CategorySummary :=
  map (category_summary sd its)
      (filter (fun cat => existsb (on_side_in sd cat) its) (taxonomy sd)).

(** Modelled from the spec: [summarize(documentId)] of section 4.5,
    recomputed from the persisted items on every call. *)
Definition summarize (doc : string) (s : Store) : DocumentSummary :=
  let its := filter (fun it => String.eqb (document_id it) doc) (items s) in
  {| ds_document_id := doc; ds_year := year_of doc s;
     revenue_total := sum_values (filter (on_side REVENUE) its);
     expense_total := sum_values (filter (on_side EXPENSE) its);
     revenue_by_category := by_category REVENUE its;
     expense_by_category := by_category EXPENSE its |}.

End Server.

(** * Vocabulary of the stated properties *)

(** The values of the items that have one, in list order. *)
Fixpoint non_null_values (items : list BudgetItem) : list Z :=
  match items with
  | [] => []
  | it :: rest =>
      match value it with
      | Some v => v :: non_null_values rest
      | None => non_null_values rest
      end
  end.





Definition sum_Z (l : list Z) : Z := fold_right Z.add 0 l.

(** [needle] occurs in [hay] character for character. *)
Definition literal_substring (needle hay : string) : Prop :=
  exists before after, hay = before ++ needle ++ after.

(** [text] is [x] written with one digit after the point and a percent
    sign: the sign of [x], then the integer [n] nearest to [10 * |x|] (the
    larger one on a tie) with the point before its last digit. *)
Definition one_decimal_percent (x : Q) (text : string) : Prop :=
  exists n : Z,
    0 <= n /\
    (inject_Z n - (1 # 2) <= Qabs x * inject_Z 10)%Q /\
    (Qabs x * inject_Z 10 < inject_Z n + (1 # 2))%Q /\
    text = (if Qle_bool 0 x then "" else "-") ++
           dec (n / 10) ++ "." ++ dec (n mod 10) ++ "%".

(** Non-increasing order of the category totals. *)
Definition total_desc (a b : CategorySummary) : Prop :=
  total_value b <= total_value a.

Module ServerProps.
Import Server.

(** The page an item cites: the page of the item's document that carries
    the item's page number. *)
Definition cited_page_in (pgs : list Page) (it : BudgetItem) : option Page :=
  find_page (page_number it)
            (filter (fun p => String.eqb (page_document p) (document_id it)) pgs).

Definition cited_page (it : BudgetItem) (s : Store) : option Page :=
  cited_page_in (pages s) it.

(** An item with a value quotes its page: non-empty evidence that occurs
    literally in the text of the cited page. *)
Definition evidence_ok (pgs : list Page) (it : BudgetItem) : Prop :=
  value it <> None ->
  evidence_text it <> "" /\
  exists p, cited_page_in pgs it = Some p /\
            literal_substring (evidence_text it) (page_text p).

(** Progress and status of a job row agree with the worker's position. *)
Definition row_ok (r : JobRow) : Prop :=
  match row_status r with
  | PENDING => row_progress r = 0 /\ row_stage r = AtExtraction
  | RUNNING =>
      match row_stage r with
      | AtExtraction => row_progress r = 0
      | AtDetection => row_progress r = 10
      | AtSections n k ok => (k < n)%nat /\ row_progress r = interpolate n k
      end
  | COMPLETED => row_progress r = 100
  | FAILED => 0 <= row_progress r < 100
  end.


(** An item is visible when it is persisted, and then also through
    [getItem] and [getItemsByCategory]. *)
Definition visible (s : Store) (it : BudgetItem) : Prop :=
  In it (items s) \/
  (exists ident, getItem ident s = Some it) \/
  (exists doc cat k, In it (getItemsByCategory doc cat k s)).

Definition status_of (j : nat) (s : Store) : option JobStatus :=
  option_map row_status (find_job j s).

(** The status chain: a job appears as [PENDING]; afterwards it keeps its
    status or moves one arrow along
    [PENDING -> RUNNING -> {COMPLETED, FAILED}]; it never disappears. *)
Definition chain_step (before after : option JobStatus) : Prop :=
  match before, after with
  | None, None => True
  | None, Some st => st = PENDING
  | Some a, Some b =>
      a = b \/ (a = PENDING /\ b = RUNNING) \/
      (a = RUNNING /\ (b = COMPLETED \/ b = FAILED))
  | Some _, None => False
  end.

(** The order a sort key asks for. *)
Definition key_order (k : SortKey) (a b : BudgetItem) : Prop :=
  match k with
  | ByValue =>
      forall x y, value a = Some x -> value b = Some y -> y <= x
  | ByPageNumber => page_number a <= page_number b
  | ByDescription =>
      String.compare (description_original a) (description_original b) <> Gt
  end.

(** The shape of an accepted event. *)
Inductive accepted (s : Store) : Event -> Store -> Prop :=
| acc_upload doc yr :
    known_document doc s = false ->
    accepted s (Upload doc yr)
      {| documents := documents s ++ [(doc, yr)]; pages := pages s;
         items := items s;
         jobs := jobs s ++ [new_job (List.length (jobs s)) doc];
         next_item := next_item s |}
| acc_reimport doc :
    known_document doc s = true ->
    accepted s (Reimport doc)
      {| documents := documents s; pages := pages s;
         items := filter (fun it => negb (String.eqb (document_id it) doc))
                         (items s);
         jobs := jobs s ++ [new_job (List.length (jobs s)) doc];
         next_item := next_item s |}
| acc_job e j r r' :
    event_job e = Some j ->
    find_job j s = Some r ->
    job_step e r = Some r' ->
    (forall c, e = Claim c ->
               existsb is_running (jobs_of (row_document r) s) = false) ->
    accepted s e
      (with_jobs (update_job j e (jobs s)) (side_effects e (row_document r) s)).

End ServerProps.

(** * Sample data

    The example of the design document: a one-page document whose text
    reads "Total Health spending: 500 EUR", split into two sections, and a
    candidate item quoting "500 EUR" from page 1. *)

Module Sample.
Import Server.

(** A currency formatter for evaluation: the code and the digits. *)
Definition euro_plain (v : Z) : string :=
  "EUR " ++ (if v <? 0 then "-" else "") ++ dec (Z.abs v).

(** [Number::toString] as it prints the powers of ten from [1e21] on:
    [1e+21], [1e+22], ... *)
Definition exponent_form (q : Q) : string :=
  "1e+" ++ dec (Z.of_nat (String.length (dec (Qfloor q))) - 1).

Definition health : CandidateItem :=
  {| c_side := "EXPENSE"; c_category := "Health";
     c_description := "Total Health spending"; c_value := Some 500;
     c_unit := "EUR"; c_page_number := 1; c_evidence_text := "500 EUR";
     c_explanation := "Spending on health" |}.

(** The same figure quoted with other separators than the page has. *)
Definition misquoted : CandidateItem :=
  {| c_side := "EXPENSE"; c_category := "Health";
     c_description := "Total"; c_value := Some 1000000;
     c_unit := "EUR"; c_page_number := 1;
     c_evidence_text := "1,000,000 EUR"; c_explanation := "Total" |}.

Definition page_text_1 : string := "Total Health spending: 500 EUR".

Definition upload_to_extraction : list Event :=
  [Upload "doc" 2024; Claim 0; Extracted 0 [page_text_1]].

Definition sections_half_way : list Event :=
  [Detected 0 2; SectionExtracted 0 [health]].

Definition half_way : list Event :=
  upload_to_extraction ++ sections_half_way.

Definition health_item : BudgetItem := make_item 0 "doc" 2024 health.

Definition row_after_extraction : JobRow :=
  {| row_id := 0; row_document := "doc"; row_status := RUNNING;
     row_progress := 10; row_error := None; row_stage := AtDetection |}.

Definition row_half_way : JobRow :=
  {| row_id := 0; row_document := "doc"; row_status := RUNNING;
     row_progress := 60; row_error := None; row_stage := AtSections 2 1 1 |}.

(** The extraction capability disabled: every section yields nothing. *)
Definition disabled_run : list Event :=
  upload_to_extraction ++
  [Detected 0 2; SectionExtracted 0 []; SectionExtracted 0 []].

(** An item whose amount could not be read. *)
Definition unreadable_item : BudgetItem :=
  {| id := "1"; document_id := "doc"; year := 2024; side := "EXPENSE";
     category := "Health"; description_original := "Sem valor";
     value := None; unit := "EUR"; page_number := 1; evidence_text := "";
     explanation := "n/d" |}.

Definition education : CategorySummary :=
  {| cs_category := "Education"; total_value := 300; item_count := 4 |}.

Definition pensions : CategorySummary :=
  {| cs_category := "Pensions & social support"; total_value := 700;
     item_count := 2 |}.

Definition job_running : ImportJob :=
  {| job_id := "7"; status := "RUNNING"; progress := 40;
     error_message := Some "section 3 skipped" |}.

Definition job_failed : ImportJob :=
  {| job_id := "6"; status := "FAILED"; progress := 10;
     error_message := Some "UnreadableDocument" |}.

Definition summary_2024 : DocumentSummary :=
  {| ds_document_id := "doc"; ds_year := 2024; revenue_total := 0;
     expense_total := 1000; revenue_by_category := [];
     expense_by_category := [education; pensions] |}.

End Sample.

(** * Properties *)

(** ** Lists, strings and sorting *)

Lemma fold_left_add_shift {A : Type} (f : A -> Z) (l : list A) (a : Z) :
  fold_left (fun sum x => sum + f x) l a =
  a + fold_left (fun sum x => sum + f x) l 0.
Proof.
  revert a. induction l as [|x l IH]; intros a; simpl.
  - lia.
  - rewrite IH. rewrite (IH (f x)). lia.
Qed.

Lemma prefix_app (n h : string) :
  prefix n h = true <-> exists after, h = n ++ after.
Proof.
  revert h. induction n as [|c n IH]; intros h.
  - split; [intros _; exists h; reflexivity | intros _; now destruct h].
  - destruct h as [|d h]; simpl.
    + split; [discriminate | intros [a Ha]; discriminate].
    + destruct (Ascii.ascii_dec c d) as [->|Hne].
      * rewrite IH. split; intros [a Ha]; exists a.
        -- now rewrite Ha.
        -- now inversion Ha.
      * split; [discriminate | intros [a Ha]; simpl in Ha; congruence].
Qed.

Lemma is_substring_literal (n h : string) :
  is_substring n h = true <-> literal_substring n h.
Proof.
  unfold literal_substring. induction h as [|d h IH]; cbn [is_substring].
  - rewrite orb_false_r, prefix_app. split.
    + intros [a Ha]. exists "", a. exact Ha.
    + intros [b [a Ha]]. destruct b as [|c b]; [exists a; exact Ha|discriminate].
  - rewrite orb_true_iff, prefix_app, IH. split.
    + intros [[a Ha]|[b [a Ha]]].
      * exists "", a. exact Ha.
      * exists (String d b), a. simpl. now rewrite Ha.
    + intros [b [a Ha]]. destruct b as [|c b].
      * left. exists a. exact Ha.
      * right. exists b, a. simpl in Ha. now inversion Ha.
Qed.

Section InsertionSortFacts.
Context {A : Type} (leb : A -> A -> bool).

Lemma insert_sorted_perm (x : A) (l : list A) :
  Permutation (insert_sorted leb x l) (x :: l).
Proof.
  induction l as [|y l IH]; simpl.
  - apply Permutation_refl.
  - destruct (leb x y).
    + apply Permutation_refl.
    + apply Permutation_trans with (y :: x :: l).
      * now apply perm_skip.
      * apply perm_swap.
Qed.

Lemma stable_sort_perm (l : list A) : Permutation (stable_sort leb l) l.
Proof.
  induction l as [|x l IH]; simpl.
  - apply perm_nil.
  - apply Permutation_trans with (x :: stable_sort leb l).
    + apply insert_sorted_perm.
    + now apply perm_skip.
Qed.

Hypothesis leb_total : forall a b, leb a b = true \/ leb b a = true.
Hypothesis leb_trans :
  forall a b c, leb a b = true -> leb b c = true -> leb a c = true.

Lemma insert_sorted_sorted (x : A) (l : list A) :
  StronglySorted (fun a b => leb a b = true) l ->
  StronglySorted (fun a b => leb a b = true) (insert_sorted leb x l).
Proof.
  induction 1 as [|y l Hs IH Hall]; simpl.
  - repeat constructor.
  - destruct (leb x y) eqn:Hxy.
    + constructor.
      * now constructor.
      * constructor; [exact Hxy|].
        eapply Forall_impl; [|exact Hall].
        intros z Hz. eapply leb_trans; eassumption.
    + constructor; [exact IH|].
      eapply Permutation_Forall.
      * apply Permutation_sym, insert_sorted_perm.
      * constructor; [|exact Hall].
        destruct (leb_total x y) as [H|H]; [congruence|exact H].
Qed.

Lemma stable_sort_sorted (l : list A) :
  StronglySorted (fun a b => leb a b = true) (stable_sort leb l).
Proof.
  induction l as [|x l IH]; simpl.
  - constructor.
  - now apply insert_sorted_sorted.
Qed.
End InsertionSortFacts.

Lemma StronglySorted_weaken {A : Type} (R S : A -> A -> Prop) (l : list A) :
  (forall a b, R a b -> S a b) -> StronglySorted R l -> StronglySorted S l.
Proof.
  intros HRS. induction 1 as [|x l Hs IH Hall]; constructor; auto.
  eapply Forall_impl; [|exact Hall]. auto.
Qed.

Lemma string_app_assoc (a b c : string) : (a ++ b) ++ c = a ++ (b ++ c).
Proof. induction a as [|x a IH]; simpl; [reflexivity | now rewrite IH]. Qed.

Lemma is_active_statuses (j : ImportJob) :
  DocumentPage.is_active j = true <->
  status j = "PENDING" \/ status j = "RUNNING".
Proof.
  unfold DocumentPage.is_active.
  now rewrite orb_true_iff, !String.eqb_eq.
Qed.

Lemma find_first {A : Type} (p : A -> bool) (l : list A) :
  match List.find p l with
  | Some x =>
      exists before after,
        l = (before ++ x :: after)%list /\ p x = true /\
        forall y, In y before -> p y = false
  | None => forall y, In y l -> p y = false
  end.
Proof.
  induction l as [|a l IH]; simpl.
  - intros y [].
  - destruct (p a) eqn:Pa.
    + exists [], l. repeat split; [exact Pa | intros y []].
    + destruct (List.find p l) as [x|].
      * destruct IH as (before & after & -> & Px & Hb).
        exists (a :: before), after. repeat split; [exact Px|].
        intros y [<-|Hy]; [exact Pa | now apply Hb].
      * intros y [<-|Hy]; [exact Pa | now apply IH].
Qed.

Lemma find_none_when_all_fail {A : Type} (p : A -> bool) (l : list A) :
  (forall x, In x l -> p x = false) -> List.find p l = None.
Proof.
  induction l as [|y l IH]; simpl; intros H; [reflexivity|].
  rewrite (H y) by now left. apply IH. intros x Hx. apply H. now right.
Qed.

(** Two lists of integers in non-increasing order with the same elements
    are the same list. *)
Lemma sorted_desc_unique (l1 l2 : list Z) :
  StronglySorted Z.ge l1 -> StronglySorted Z.ge l2 ->
  Permutation l1 l2 -> l1 = l2.
Proof.
  intros H1. revert l2. induction H1 as [|x l1 Hs1 IH Hall1]; intros l2 H2 Hp.
  - apply Permutation_nil in Hp. now subst.
  - destruct H2 as [|y l2 Hs2 Hall2].
    + apply Permutation_sym, Permutation_nil in Hp. discriminate.
    + assert (Hxy : x = y).
      { assert (Hx : In x (y :: l2)) by (eapply Permutation_in; [exact Hp | now left]).
        assert (Hy : In y (x :: l1))
          by (eapply Permutation_in; [apply Permutation_sym; exact Hp | now left]).
        rewrite Forall_forall in Hall1, Hall2.
        destruct Hx as [Hx|Hx]; [now subst|].
        destruct Hy as [Hy|Hy]; [now subst|].
        specialize (Hall1 _ Hy). specialize (Hall2 _ Hx). lia. }
      subst y. f_equal. apply IH; [exact Hs2|].
      eapply Permutation_cons_inv; exact Hp.
Qed.

Lemma StronglySorted_map {A B : Type} (f : A -> B) (R : B -> B -> Prop)
      (l : list A) :
  StronglySorted (fun a b => R (f a) (f b)) l -> StronglySorted R (map f l).
Proof.
  induction 1 as [|x l Hs IH Hall]; simpl; constructor; [exact IH|].
  apply Forall_map. exact Hall.
Qed.

(** ** The dashboard sort *)

Lemma js_sort_by_total_perm (l : list CategorySummary) :
  Permutation (js_sort DocumentPage.by_total_desc l) l.
Proof. apply stable_sort_perm. Qed.

Lemma js_sort_by_total_sorted (l : list CategorySummary) :
  StronglySorted total_desc (js_sort DocumentPage.by_total_desc l).
Proof.
  unfold js_sort.
  eapply StronglySorted_weaken; [|apply stable_sort_sorted].
  - intros a b H. cbv beta in H. unfold total_desc.
    apply Z.leb_le in H. unfold DocumentPage.by_total_desc in H. lia.
  - intros a b. unfold DocumentPage.by_total_desc.
    destruct (Z.leb_spec (total_value b - total_value a) 0); [now left|].
    right. apply Z.leb_le. lia.
  - intros a b c H1 H2. unfold DocumentPage.by_total_desc in *.
    apply Z.leb_le in H1, H2. apply Z.leb_le. lia.
Qed.

Lemma js_sort_by_total_order_free (l1 l2 : list CategorySummary) :
  Permutation l1 l2 ->
  map total_value (js_sort DocumentPage.by_total_desc l1) =
  map total_value (js_sort DocumentPage.by_total_desc l2).
Proof.
  intros Hp. apply sorted_desc_unique.
  - apply StronglySorted_map.
    eapply StronglySorted_weaken; [|apply js_sort_by_total_sorted].
    unfold total_desc. intros; lia.
  - apply StronglySorted_map.
    eapply StronglySorted_weaken; [|apply js_sort_by_total_sorted].
    unfold total_desc. intros; lia.
  - apply Permutation_map.
    eapply Permutation_trans; [apply js_sort_by_total_perm|].
    eapply Permutation_trans; [exact Hp|].
    apply Permutation_sym, js_sort_by_total_perm.
Qed.

(** C9.  Whatever order the summary response lists the categories in, the
    dashboard shows the revenue categories and the expense categories in
    non-increasing order of [total_value]: each shown list is a
    rearrangement of the response's list, it is sorted, and two responses
    with the same categories in different orders show the same sequence of
    totals. *)
Theorem dashboard_categories_sorted_desc :
  forall summary : DocumentSummary,
    (Permutation (DocumentPage.shown_revenue summary)
                 (revenue_by_category summary) /\
     StronglySorted total_desc (DocumentPage.shown_revenue summary)) /\
    (Permutation (DocumentPage.shown_expense summary)
                 (expense_by_category summary) /\
     StronglySorted total_desc (DocumentPage.shown_expense summary)) /\
    (forall other : DocumentSummary,
        Permutation (revenue_by_category other) (revenue_by_category summary) ->
        map total_value (DocumentPage.shown_revenue other) =
        map total_value (DocumentPage.shown_revenue summary)) /\
    (forall other : DocumentSummary,
        Permutation (expense_by_category other) (expense_by_category summary) ->
        map total_value (DocumentPage.shown_expense other) =
        map total_value (DocumentPage.shown_expense summary)).
Proof.
  intros summary. unfold DocumentPage.shown_revenue, DocumentPage.shown_expense.
  repeat split.
  - apply js_sort_by_total_perm.
  - apply js_sort_by_total_sorted.
  - apply js_sort_by_total_perm.
  - apply js_sort_by_total_sorted.
  - intros other Hp. now apply js_sort_by_total_order_free.
  - intros other Hp. now apply js_sort_by_total_order_free.
Qed.

(** ** Side labels *)

(** C10.  [getSideLabel] is a total function of its string argument (as
    every function here is); it answers 'RECEITA' exactly for the string
    'REVENUE' and 'DESPESA' for every other string, on the dashboard and on
    the item page alike. *)
Theorem getSideLabel_revenue_iff :
  forall side : string,
    (DocumentPage.getSideLabel side = "RECEITA" <-> side = "REVENUE") /\
    (DocumentPage.getSideLabel side = "DESPESA" <-> side <> "REVENUE") /\
    (ItemPage.getSideLabel side = "RECEITA" <-> side = "REVENUE") /\
    (ItemPage.getSideLabel side = "DESPESA" <-> side <> "REVENUE").
Proof.
  intros side.
  unfold DocumentPage.getSideLabel, ItemPage.getSideLabel.
  destruct (String.eqb_spec side "REVENUE") as [->|Hne].
  - repeat split; intros; try reflexivity; try discriminate; congruence.
  - repeat split; intros; try reflexivity; try discriminate; congruence.
Qed.

(** ** Amounts *)

(** C7.  With a currency formatter that never prints the text 'N/A' (as
    [Intl.NumberFormat] does not), the rendered amount is 'N/A' exactly when
    the value is null, on the item page and on the category page; a stored
    0 goes through the currency formatter, so it is not shown as missing and
    a missing value is not shown as the amount zero. *)
Theorem formatCurrency_NA_iff_null :
  forall numberFormat : Z -> string,
    (forall x, numberFormat x <> "N/A") ->
    forall (value : option Z) (unit : string),
      (ItemPage.formatCurrency numberFormat value unit = "N/A" <->
       value = None) /\
      (CategoryPage.formatCurrency numberFormat value unit = "N/A" <->
       value = None) /\
      ItemPage.formatCurrency numberFormat (Some 0) unit = numberFormat 0 /\
      CategoryPage.formatCurrency numberFormat (Some 0) unit = numberFormat 0 /\
      ItemPage.formatCurrency numberFormat None unit <>
      ItemPage.formatCurrency numberFormat (Some 0) unit /\
      CategoryPage.formatCurrency numberFormat None unit <>
      CategoryPage.formatCurrency numberFormat (Some 0) unit.
Proof.
  intros nf Hnf value unit.
  unfold ItemPage.formatCurrency, CategoryPage.formatCurrency.
  repeat split; try (intros H; specialize (Hnf 0); congruence).
  - destruct value as [v|]; [intros H; now apply Hnf in H | reflexivity].
  - intros ->. reflexivity.
  - destruct value as [v|]; [intros H; now apply Hnf in H | reflexivity].
  - intros ->. reflexivity.
Qed.

(** ** Totals *)












(** ** Percentages *)

Lemma round_half_up_bounds (a : Q) :
  (0 <= a)%Q ->
  let n := Qfloor (a * inject_Z 10 + (1 # 2)) in
  0 <= n /\
  (inject_Z n - (1 # 2) <= a * inject_Z 10)%Q /\
  (a * inject_Z 10 < inject_Z n + (1 # 2))%Q.
Proof.
  intros Ha n. subst n.
  set (y := (a * inject_Z 10 + (1 # 2))%Q).
  assert (Hy : (0 <= y)%Q).
  { unfold y. change (inject_Z 10) with (10 # 1). lra. }
  pose proof (Qfloor_le y) as Hlo.
  pose proof (Qlt_floor y) as Hhi.
  rewrite inject_Z_plus in Hhi. change (inject_Z 1) with (1 # 1) in Hhi.
  repeat split.
  - rewrite <- (Qfloor_Z 0). now apply Qfloor_resp_le.
  - assert (Ey : (y == a * inject_Z 10 + (1 # 2))%Q) by reflexivity.
    generalize dependent (inject_Z (Qfloor y)). intros q Hq' _. lra.
  - assert (Ey : (y == a * inject_Z 10 + (1 # 2))%Q) by reflexivity.
    generalize dependent (inject_Z (Qfloor y)). intros q _ Hq. lra.
Qed.

(** C8, as amended.  The percentage shown for a category total [v]
    against a side total [t], both doubles, is '0%' when [t === 0].
    Otherwise the quotient is taken with a divisor that is not zero, and the
    text is the double [x = (v / t) * 100] as [toFixed(1)] prints it: when
    [x] is finite and below [1e21] in magnitude, [x] written with one digit
    after the point (the nearest tenth of [x], which is not always the
    nearest tenth of the exact quotient) and a percent sign. *)
Theorem formatPercentage_never_divides_by_zero :
  forall (numberToString : Q -> string) (v t : float),
    (PrimFloat.eqb t 0 = true /\
     DocumentPage.formatPercentage numberToString v t = "0%") \/
    (PrimFloat.eqb t 0 = false /\
     forall q : Q,
       exact_value (js_mul (js_div v t) 100) = Finite q ->
       (Qabs q < inject_Z (10 ^ 21))%Q ->
       one_decimal_percent q
                           (DocumentPage.formatPercentage numberToString v t)).
Proof.
  intros nts v t. unfold DocumentPage.formatPercentage.
  destruct (PrimFloat.eqb t 0) eqn:Et.
  - left. split; reflexivity.
  - right. split; [reflexivity|]. intros q Hq Hsmall. rewrite Hq.
    destruct (round_half_up_bounds (Qabs q) (Qabs_nonneg q)) as (Hn & Hlo & Hhi).
    exists (Qfloor (Qabs q * inject_Z 10 + (1 # 2))).
    split; [exact Hn|]. split; [exact Hlo|]. split; [exact Hhi|].
    cbn [toFixed1]. cbv zeta.
    assert (Hb : Qle_bool (inject_Z (10 ^ 21)) (Qabs q) = false).
    { destruct (Qle_bool (inject_Z (10 ^ 21)) (Qabs q)) eqn:E; [|reflexivity].
      apply Qle_bool_iff in E. exfalso. now apply (Qlt_not_le _ _ Hsmall). }
    rewrite Hb. now rewrite !string_app_assoc.
Qed.

(** C8, as amended, at 23 of 80: the double is finite and below [1e21],
    and the text is that double to one decimal place. *)
Lemma formatPercentage_never_divides_by_zero_witness :
  exists q : Q,
    exact_value (js_mul (js_div 23 80) 100) = Finite q /\
    one_decimal_percent
      q (DocumentPage.formatPercentage Sample.exponent_form 23 80).
Proof.
  destruct (formatPercentage_never_divides_by_zero Sample.exponent_form 23 80)
    as [[H _]|[_ H]].
  - vm_compute in H. discriminate H.
  - eexists. split; [vm_compute; reflexivity|].
    apply H; [vm_compute; reflexivity | vm_compute; reflexivity].
Defined.

(** C8 as stated fails in two ways.  For 23 of 80 the exact quotient times
    100 is 28.75, whose nearest tenth by the rule of [toFixed] is 28.8, but
    the doubles give 28.749999999999996 and the text is '28.7%'.  For the
    largest double against 0.5 the quotient overflows and the text is
    'Infinity%'. *)
Lemma formatPercentage_not_the_exact_quotient :
  DocumentPage.formatPercentage Sample.exponent_form 23 80 = "28.7%" /\
  ~ one_decimal_percent (inject_Z 23 / inject_Z 80 * inject_Z 100) "28.7%" /\
  DocumentPage.formatPercentage Sample.exponent_form
    0x1.fffffffffffffp+1023 0.5 = "Infinity%".
Proof.
  split; [vm_compute; reflexivity|]. split; [|vm_compute; reflexivity].
  intros (n & Hn & Hlo & Hhi & Heq).
  assert (Hn288 : n = 288).
  { clear - Hlo Hhi.
    assert (Hx1 : (Qabs (inject_Z 23 / inject_Z 80 * inject_Z 100)
                   * inject_Z 10 <= 575 # 2)%Q)
      by (apply Qle_bool_iff; vm_compute; reflexivity).
    assert (Hx2 : (575 # 2 <=
                   Qabs (inject_Z 23 / inject_Z 80 * inject_Z 100)
                   * inject_Z 10)%Q)
      by (apply Qle_bool_iff; vm_compute; reflexivity).
    pose proof (Qle_trans _ _ _ Hlo Hx1) as H1.
    pose proof (Qle_lt_trans _ _ _ Hx2 Hhi) as H2.
    clear - H1 H2. unfold Qle, Qlt, Qminus, Qplus, Qopp, inject_Z in H1, H2.
    cbn [Qnum Qden] in H1, H2. lia. }
  subst n. clear - Heq. vm_compute in Heq. discriminate Heq.
Qed.

(** ** Lexicographic order on strings *)

Lemma string_compare_le_trans (a b c : string) :
  String.compare a b <> Gt -> String.compare b c <> Gt ->
  String.compare a c <> Gt.
Proof.
  revert b c. induction a as [|x a IH]; intros [|y b] [|z c]; simpl;
    try congruence.
  unfold Ascii.compare. intros Hab Hbc.
  destruct (N.compare_spec (N_of_ascii x) (N_of_ascii y));
    destruct (N.compare_spec (N_of_ascii y) (N_of_ascii z));
    destruct (N.compare_spec (N_of_ascii x) (N_of_ascii z));
    try congruence; try lia.
  eapply IH; eassumption.
Qed.

Lemma string_leb_le (a b : string) :
  String.leb a b = true <-> String.compare a b <> Gt.
Proof.
  unfold String.leb. destruct (String.compare a b); split; congruence.
Qed.

Lemma string_leb_trans (a b c : string) :
  String.leb a b = true -> String.leb b c = true -> String.leb a c = true.
Proof.
  rewrite !string_leb_le. apply string_compare_le_trans.
Qed.

(** ** The items-by-category query *)

Section QueryFacts.
Import Server ServerProps.

Lemma sort_order_total (k : SortKey) (a b : BudgetItem) :
  sort_order k a b = true \/ sort_order k b a = true.
Proof.
  destruct k; simpl.
  - unfold value_desc. destruct (value a) as [x|], (value b) as [y|]; auto.
    destruct (Z.leb_spec y x); [now left|]. right. apply Z.leb_le. lia.
  - unfold page_asc.
    destruct (Z.leb_spec (page_number a) (page_number b)); [now left|].
    right. apply Z.leb_le. lia.
  - apply String.leb_total.
Qed.

Lemma sort_order_trans (k : SortKey) (a b c : BudgetItem) :
  sort_order k a b = true -> sort_order k b c = true ->
  sort_order k a c = true.
Proof.
  destruct k; simpl.
  - unfold value_desc.
    destruct (value a) as [x|], (value b) as [y|], (value c) as [z|];
      try congruence.
    rewrite !Z.leb_le. lia.
  - unfold page_asc. rewrite !Z.leb_le. lia.
  - apply string_leb_trans.
Qed.

Lemma sort_order_key_order (k : SortKey) (a b : BudgetItem) :
  sort_order k a b = true -> key_order k a b.
Proof.
  destruct k; simpl.
  - unfold value_desc. intros H x y Ha Hb. rewrite Ha, Hb in H.
    now apply Z.leb_le.
  - unfold page_asc. apply Z.leb_le.
  - unfold description_asc. apply string_leb_le.
Qed.

Lemma in_category_spec (doc cat : string) (it : BudgetItem) :
  in_category doc cat it = true <-> document_id it = doc /\ category it = cat.
Proof.
  unfold in_category. now rewrite andb_true_iff, !String.eqb_eq.
Qed.

Lemma parse_sort_key_options (sort_by : string) :
  In sort_by CategoryPage.sort_options <-> parse_sort_key sort_by <> None.
Proof.
  unfold parse_sort_key, CategoryPage.sort_options. simpl.
  destruct (String.eqb_spec sort_by "value") as [->|H1]; [intuition congruence|].
  destruct (String.eqb_spec sort_by "page_number") as [->|H2];
    [intuition congruence|].
  destruct (String.eqb_spec sort_by "description") as [->|H3];
    [intuition congruence|].
  intuition congruence.
Qed.

(** C6.  For every store, document and category the items-by-category
    query returns exactly the items of that document and category, in the
    order of the requested key: by value with larger values first, by
    page number with smaller numbers first, or by description in
    lexicographic order.  There are three keys, and the three options of
    the client's selector ('value', 'page_number', 'description', the first
    being the initial choice) are exactly the strings that name them. *)
Theorem items_by_category_sorted_by_key :
  forall (s : Store) (doc cat : string) (k : SortKey),
    Permutation (getItemsByCategory doc cat k s)
                (filter (in_category doc cat) (items s)) /\
    (forall it, In it (getItemsByCategory doc cat k s) <->
                In it (items s) /\ document_id it = doc /\ category it = cat) /\
    StronglySorted (key_order k) (getItemsByCategory doc cat k s) /\
    (k = ByValue \/ k = ByPageNumber \/ k = ByDescription) /\
    map parse_sort_key CategoryPage.sort_options =
    [Some ByValue; Some ByPageNumber; Some ByDescription] /\
    parse_sort_key CategoryPage.initial_sortBy = Some ByValue /\
    (forall sort_by, In sort_by CategoryPage.sort_options <->
                     parse_sort_key sort_by <> None).
Proof.
  intros s doc cat k. unfold getItemsByCategory.
  pose proof (stable_sort_perm (sort_order k)
                (filter (in_category doc cat) (items s))) as Hp.
  split; [exact Hp|]. split.
  { intros it. split.
    - intros H. apply (Permutation_in _ Hp), filter_In in H.
      destruct H as [Hin Hc]. apply in_category_spec in Hc. tauto.
    - intros (Hin & Hd & Hc). apply (Permutation_in _ (Permutation_sym Hp)).
      apply filter_In. split; [exact Hin|]. now apply in_category_spec. }
  split.
  { eapply StronglySorted_weaken; [apply sort_order_key_order|].
    apply stable_sort_sorted;
      [apply sort_order_total | apply sort_order_trans]. }
  split; [destruct k; auto|].
  split; [reflexivity|]. split; [reflexivity|].
  apply parse_sort_key_options.
Qed.
End QueryFacts.

(** ** The job orchestrator *)

Section OrchestratorFacts.
Import Server ServerProps.

Lemma side_effects_jobs (e : Event) (doc : string) (s : Store) :
  jobs (side_effects e doc s) = jobs s.
Proof.
  destruct e; simpl; try reflexivity.
  destruct (pages_of doc s); reflexivity.
Qed.

Lemma step_accepted (e : Event) (s s' : Store) :
  step e s = Some s' -> accepted s e s'.
Proof.
  destruct e as [doc yr|doc|j|j texts|j|j n|j cs|j|j cause];
    cbn [step event_job].
  - destruct (known_document doc s) eqn:K; [discriminate|].
    intros H; inversion H; subst. now constructor.
  - destruct (known_document doc s) eqn:K; simpl; [|discriminate].
    intros H; inversion H; subst. now constructor.
  - destruct (find_job j s) as [r|] eqn:F; [|discriminate].
    destruct (job_step (Claim j) r) as [r'|] eqn:J; [|discriminate].
    destruct (existsb is_running (jobs_of (row_document r) s)) eqn:G;
      [discriminate|].
    intros H; injection H as <-.
    exact (acc_job s (Claim j) j r r' eq_refl F J (fun _ _ => G)).
  - destruct (find_job j s) as [r|] eqn:F; [|discriminate].
    destruct (job_step (Extracted j texts) r) as [r'|] eqn:J; [|discriminate].
    rewrite side_effects_jobs. intros H; injection H as <-.
    exact (acc_job s (Extracted j texts) j r r' eq_refl F J
             ltac:(intros c Hc; discriminate Hc)).
  - destruct (find_job j s) as [r|] eqn:F; [|discriminate].
    destruct (job_step (Unreadable j) r) as [r'|] eqn:J; [|discriminate].
    rewrite side_effects_jobs. intros H; injection H as <-.
    exact (acc_job s (Unreadable j) j r r' eq_refl F J
             ltac:(intros c Hc; discriminate Hc)).
  - destruct (find_job j s) as [r|] eqn:F; [|discriminate].
    destruct (job_step (Detected j n) r) as [r'|] eqn:J; [|discriminate].
    rewrite side_effects_jobs. intros H; injection H as <-.
    exact (acc_job s (Detected j n) j r r' eq_refl F J
             ltac:(intros c Hc; discriminate Hc)).
  - destruct (find_job j s) as [r|] eqn:F; [|discriminate].
    destruct (job_step (SectionExtracted j cs) r) as [r'|] eqn:J;
      [|discriminate].
    rewrite side_effects_jobs. intros H; injection H as <-.
    exact (acc_job s (SectionExtracted j cs) j r r' eq_refl F J
             ltac:(intros c Hc; discriminate Hc)).
  - destruct (find_job j s) as [r|] eqn:F; [|discriminate].
    destruct (job_step (SectionSkipped j) r) as [r'|] eqn:J; [|discriminate].
    rewrite side_effects_jobs. intros H; injection H as <-.
    exact (acc_job s (SectionSkipped j) j r r' eq_refl F J
             ltac:(intros c Hc; discriminate Hc)).
  - destruct (find_job j s) as [r|] eqn:F; [|discriminate].
    destruct (job_step (Abort j cause) r) as [r'|] eqn:J; [|discriminate].
    rewrite side_effects_jobs. intros H; injection H as <-.
    exact (acc_job s (Abort j cause) j r r' eq_refl F J
             ltac:(intros c Hc; discriminate Hc)).
Qed.

(** An event is either refused, and nothing changes, or accepted. *)
Lemma apply_event_cases (s : Store) (e : Event) :
  apply_event s e = s \/ accepted s e (apply_event s e).
Proof.
  unfold apply_event. destruct (step e s) as [s'|] eqn:E.
  - right. now apply step_accepted.
  - now left.
Qed.

(** Invariants of the store carry over to every run. *)
Lemma run_invariant (P : Store -> Prop) :
  (forall s e s', P s -> accepted s e s' -> P s') ->
  forall events s, P s -> P (run events s).
Proof.
  intros Hstep events. induction events as [|e events IH]; intros s Hs.
  - exact Hs.
  - simpl. apply IH. destruct (apply_event_cases s e) as [->|Hacc].
    + exact Hs.
    + eapply Hstep; eassumption.
Qed.

(** *** What a job step does to a row *)

Lemma job_step_keeps_identity (e : Event) (r r' : JobRow) :
  job_step e r = Some r' ->
  row_id r' = row_id r /\ row_document r' = row_document r.
Proof.
  unfold job_step, section_handled.
  destruct (row_status r); destruct e; try discriminate;
    try (destruct texts; try discriminate);
    try (destruct (row_stage r) as [| |n k ok]; try discriminate);
    try (destruct (0 <? sections)%nat; try discriminate);
    try (destruct (k <? n)%nat; try discriminate);
    try (destruct (S k <? n)%nat);
    try (destruct (S ok =? 0)%nat);
    try (destruct (ok =? 0)%nat);
    intros H; inversion H; subst; split; reflexivity.
Qed.

Lemma job_step_chain (e : Event) (r r' : JobRow) :
  job_step e r = Some r' ->
  (row_status r = PENDING /\ row_status r' = RUNNING /\
   exists j, e = Claim j) \/
  (row_status r = RUNNING /\
   (row_status r' = RUNNING \/ row_status r' = COMPLETED \/
    row_status r' = FAILED)).
Proof.
  unfold job_step, section_handled.
  destruct (row_status r) eqn:St; destruct e; try discriminate;
    try (destruct texts; try discriminate);
    try (destruct (row_stage r) as [| |n k ok]; try discriminate);
    try (destruct (0 <? sections)%nat; try discriminate);
    try (destruct (k <? n)%nat; try discriminate);
    try (destruct (S k <? n)%nat);
    try (destruct (S ok =? 0)%nat);
    try (destruct (ok =? 0)%nat);
    intros H; inversion H; subst; simpl; rewrite ?St; eauto 6.
Qed.

Lemma stepped_id (j : nat) (e : Event) (r : JobRow) :
  row_id (stepped j e r) = row_id r.
Proof.
  unfold stepped. destruct (row_id r =? j)%nat; [|reflexivity].
  destruct (job_step e r) eqn:J; [|reflexivity].
  now apply job_step_keeps_identity in J.
Qed.


Lemma find_map_same_test {A : Type} (p : A -> bool) (g : A -> A) (l : list A) :
  (forall x, p (g x) = p x) ->
  List.find p (map g l) = option_map g (List.find p l).
Proof.
  intros H. induction l as [|x l IH]; simpl; [reflexivity|].
  rewrite H. destruct (p x); [reflexivity | exact IH].
Qed.

Lemma find_job_after_update (j j' : nat) (e : Event) (rows : list JobRow) :
  List.find (fun r => (row_id r =? j)%nat) (update_job j' e rows) =
  option_map (stepped j' e) (List.find (fun r => (row_id r =? j)%nat) rows).
Proof.
  unfold update_job. apply (find_map_same_test _ (stepped j' e)).
  intros r. now rewrite stepped_id.
Qed.

Lemma find_job_after_append (j : nat) (rows : list JobRow) (r : JobRow) :
  List.find (fun x => (row_id x =? j)%nat) (rows ++ [r]) =
  match List.find (fun x => (row_id x =? j)%nat) rows with
  | Some x => Some x
  | None => if (row_id r =? j)%nat then Some r else None
  end.
Proof.
  induction rows as [|y rows IH]; simpl.
  - reflexivity.
  - destruct (row_id y =? j)%nat; [reflexivity | exact IH].
Qed.

Lemma find_job_id (j : nat) (s : Store) (r : JobRow) :
  find_job j s = Some r -> row_id r = j.
Proof.
  unfold find_job. intros H. apply find_some in H. destruct H as [_ H].
  now apply Nat.eqb_eq.
Qed.
Lemma status_after_accepted (s s' : Store) (e : Event) (j : nat) :
  accepted s e s' ->
  chain_step (status_of j s) (status_of j s') /\
  (status_of j s = Some PENDING -> status_of j s' = Some RUNNING ->
   e = Claim j).
Proof.
  unfold status_of, find_job.
  intros [doc yr K|doc K|e' j' r r' Ej F J G]; cbn [jobs with_jobs].
  - rewrite find_job_after_append.
    destruct (List.find _ (jobs s)) as [x|]; simpl.
    + split; [now left | congruence].
    + destruct (Nat.eqb _ j); simpl; [split; [reflexivity|congruence]|].
      split; [exact I | congruence].
  - rewrite find_job_after_append.
    destruct (List.find _ (jobs s)) as [x|]; simpl.
    + split; [now left | congruence].
    + destruct (Nat.eqb _ j); simpl; [split; [reflexivity|congruence]|].
      split; [exact I | congruence].
  - rewrite find_job_after_update.
    destruct (List.find _ (jobs s)) as [x|] eqn:Fx; simpl; [|split; [exact I|congruence]].
    assert (Hid : row_id x = j).
    { apply find_some in Fx. now apply Nat.eqb_eq. }
    unfold stepped. destruct (Nat.eqb_spec (row_id x) j') as [Hj|Hj].
    + destruct (job_step e' x) as [x'|] eqn:Jx.
      * destruct (job_step_chain _ _ _ Jx) as [(H1 & H2 & [c Hc])|(H1 & H2)].
        -- rewrite H1, H2. split; [auto|]. intros _ _. subst e'.
           simpl in Ej. congruence.
        -- rewrite H1. split; [|congruence].
           destruct H2 as [ -> | [ -> | -> ] ]; auto.
      * split; [now left | congruence].
    + split; [now left | congruence].
Qed.

Lemma status_after_event (s : Store) (e : Event) (j : nat) :
  chain_step (status_of j s) (status_of j (apply_event s e)) /\
  (status_of j s = Some PENDING ->
   status_of j (apply_event s e) = Some RUNNING -> e = Claim j).
Proof.
  destruct (apply_event_cases s e) as [->|Hacc].
  - split; [|congruence].
    unfold chain_step. destruct (status_of j s); auto.
  - now apply status_after_accepted.
Qed.

Lemma terminal_status_stays (later : list Event) :
  forall (s : Store) (j : nat) (st : JobStatus),
    status_of j s = Some st -> terminal st = true ->
    status_of j (run later s) = Some st.
Proof.
  induction later as [|e later IH]; intros s j st Hst Ht; simpl.
  - exact Hst.
  - apply IH; [|exact Ht].
    destruct (status_after_event s e j) as [Hc _].
    rewrite Hst in Hc. unfold chain_step in Hc.
    destruct (status_of j (apply_event s e)) as [b|]; [|contradiction].
    destruct Hc as [ <- | [ [ -> _ ] | [ -> _ ] ] ];
      [reflexivity|discriminate|discriminate].
Qed.

(** C4.  Whatever the store and the event: a job that appears is
    [PENDING]; an existing job keeps its status or moves one step along
    [PENDING -> RUNNING -> COMPLETED | FAILED], and it is never removed; the
    step from [PENDING] to [RUNNING] happens only by the claim of that job;
    and a job that is [COMPLETED] or [FAILED] has that status after every
    further sequence of events (a re-import adds a new job beside it). *)
Theorem job_status_follows_chain :
  forall (s : Store) (e : Event) (j : nat),
    status_of j empty_store = None /\
    chain_step (status_of j s) (status_of j (apply_event s e)) /\
    (status_of j s = Some PENDING ->
     status_of j (apply_event s e) = Some RUNNING -> e = Claim j) /\
    (forall st later,
        status_of j s = Some st -> terminal st = true ->
        status_of j (run later s) = Some st).
Proof.
  intros s e j. split; [reflexivity|].
  destruct (status_after_event s e j) as [H1 H2].
  split; [exact H1|]. split; [exact H2|].
  intros st later Hst Ht. now apply terminal_status_stays.
Qed.
(** *** Progress *)

Lemma interpolate_range (n k : nat) :
  (k < n)%nat -> 20 <= interpolate n k < 100.
Proof.
  intros H. unfold interpolate.
  assert (0 <= 80 * Z.of_nat k / Z.of_nat n < 80).
  { split; [apply Z.div_pos; lia | apply Z.div_lt_upper_bound; lia]. }
  lia.
Qed.

Lemma interpolate_mono (n k : nat) :
  (0 < n)%nat -> interpolate n k <= interpolate n (S k).
Proof.
  intros H. unfold interpolate.
  assert (80 * Z.of_nat k / Z.of_nat n <= 80 * Z.of_nat (S k) / Z.of_nat n).
  { apply Z.div_le_mono; lia. }
  lia.
Qed.

Lemma interpolate_start (n : nat) : interpolate n 0 = 20.
Proof.
  unfold interpolate. change (Z.of_nat 0) with 0. rewrite Z.mul_0_r.
  now rewrite Zdiv_0_l.
Qed.

Lemma section_handled_progress (n k ok : nat) (r : JobRow) :
  (k < n)%nat -> row_status r = RUNNING ->
  row_progress r = interpolate n k ->
  row_progress r <= row_progress (section_handled n k ok r) /\
  row_ok (section_handled n k ok r).
Proof.
  intros Hk Hst Hp. unfold section_handled.
  pose proof (interpolate_range n k Hk) as Hr.
  destruct (Nat.ltb_spec (S k) n) as [Hlt|Hge].
  - unfold row_ok. simpl. rewrite Hst, Hp. split.
    + apply interpolate_mono. lia.
    + split; [exact Hlt | reflexivity].
  - destruct (Nat.eqb_spec ok 0) as [E|E].
    + unfold row_ok. simpl. lia.
    + unfold row_ok. simpl. lia.
Qed.

Lemma job_step_progress (e : Event) (r r' : JobRow) :
  row_ok r -> job_step e r = Some r' ->
  row_progress r <= row_progress r' /\ row_ok r'.
Proof.
  unfold job_step, row_ok at 1.
  destruct (row_status r) eqn:St; try (destruct e; discriminate).
  - destruct e; try discriminate. intros [Hp Hg] H. injection H as <-.
    unfold row_ok. simpl. rewrite Hg. lia.
  - destruct e as [doc yr|doc|j|j texts|j|j n|j cs|j|j cause];
      try discriminate.
    + destruct texts as [|t texts]; [discriminate|].
      destruct (row_stage r) as [| |n k ok]; try discriminate.
      intros Hp H. injection H as <-. unfold row_ok. simpl. rewrite St. lia.
    + destruct (row_stage r) as [| |n k ok]; try discriminate.
      intros Hp H. injection H as <-. unfold row_ok. simpl. lia.
    + destruct (row_stage r) as [| |m k ok]; try discriminate.
      destruct (Nat.ltb_spec 0 n) as [Hn|Hn]; [|discriminate].
      intros Hp H. injection H as <-. unfold row_ok. simpl. rewrite St.
      rewrite interpolate_start. lia.
    + destruct (row_stage r) as [| |n k ok]; try discriminate.
      intros [Hk Hp]. destruct (k <? n)%nat; [|discriminate].
      intros H. injection H as <-.
      apply section_handled_progress; auto.
    + destruct (row_stage r) as [| |n k ok]; try discriminate.
      intros [Hk Hp]. destruct (k <? n)%nat; [|discriminate].
      intros H. injection H as <-.
      apply section_handled_progress; auto.
    + intros Hp H. injection H as <-. unfold row_ok. simpl.
      destruct (row_stage r) as [| |n k ok]; try lia.
      destruct Hp as [Hk Hp]. pose proof (interpolate_range n k Hk). lia.
Qed.

Lemma stepped_progress (j : nat) (e : Event) (r : JobRow) :
  row_ok r ->
  row_progress r <= row_progress (stepped j e r) /\ row_ok (stepped j e r).
Proof.
  intros Hr. unfold stepped. destruct (row_id r =? j)%nat.
  - destruct (job_step e r) as [r'|] eqn:J.
    + now apply job_step_progress with (e := e).
    + split; [lia | exact Hr].
  - split; [lia | exact Hr].
Qed.

Lemma rows_ok_accepted (s s' : Store) (e : Event) :
  Forall row_ok (jobs s) -> accepted s e s' -> Forall row_ok (jobs s').
Proof.
  intros Hs [doc yr K|doc K|e' j' r r' Ej F J G]; cbn [jobs with_jobs].
  - apply Forall_app. split; [exact Hs|]. constructor; [|constructor].
    unfold row_ok. simpl. auto.
  - apply Forall_app. split; [exact Hs|]. constructor; [|constructor].
    unfold row_ok. simpl. auto.
  - unfold update_job. apply Forall_map.
    eapply Forall_impl; [|exact Hs]. intros x Hx.
    now apply stepped_progress.
Qed.

Lemma rows_ok_run (events : list Event) :
  Forall row_ok (jobs (run events empty_store)).
Proof.
  apply (run_invariant (fun s => Forall row_ok (jobs s))).
  - intros s e s' Hs Hacc. eapply rows_ok_accepted; eassumption.
  - constructor.
Qed.

Lemma row_ok_bounds (r : JobRow) :
  row_ok r ->
  0 <= row_progress r <= 100 /\
  (row_progress r = 100 -> row_status r = COMPLETED).
Proof.
  unfold row_ok. destruct (row_status r).
  - intros [-> _]. split; [lia | discriminate].
  - destruct (row_stage r) as [| |n k ok].
    + intros ->. split; [lia | discriminate].
    + intros ->. split; [lia | discriminate].
    + intros [Hk ->]. pose proof (interpolate_range n k Hk). split; lia.
  - intros ->. split; [lia | reflexivity].
  - intros H. split; lia.
Qed.

Lemma progress_after_event (s : Store) (e : Event) (j : nat) (r : JobRow) :
  Forall row_ok (jobs s) -> find_job j s = Some r ->
  exists r1, find_job j (apply_event s e) = Some r1 /\
             row_progress r <= row_progress r1.
Proof.
  intros Hs F. destruct (apply_event_cases s e) as [->|Hacc].
  - exists r. split; [exact F | lia].
  - revert Hacc. generalize (apply_event s e). intros s' Hacc.
    unfold find_job in *.
    destruct Hacc as [doc yr K|doc K|e' j' x x' Ej Fx J G];
      cbn [jobs with_jobs].
    + rewrite find_job_after_append, F. exists r. split; [reflexivity|lia].
    + rewrite find_job_after_append, F. exists r. split; [reflexivity|lia].
    + rewrite find_job_after_update, F. simpl.
      exists (stepped j' e' r). split; [reflexivity|].
      apply stepped_progress.
      apply find_some in F. destruct F as [Hin _].
      rewrite Forall_forall in Hs. now apply Hs.
Qed.

Lemma rows_ok_event (s : Store) (e : Event) :
  Forall row_ok (jobs s) -> Forall row_ok (jobs (apply_event s e)).
Proof.
  intros Hs. destruct (apply_event_cases s e) as [->|Hacc]; [exact Hs|].
  eapply rows_ok_accepted; eassumption.
Qed.

Lemma progress_after_run (later : list Event) :
  forall (s : Store) (j : nat) (r r' : JobRow),
    Forall row_ok (jobs s) -> find_job j s = Some r ->
    find_job j (run later s) = Some r' ->
    row_progress r <= row_progress r'.
Proof.
  induction later as [|e later IH]; intros s j r r' Hs F F'; simpl in F'.
  - rewrite F in F'. injection F' as <-. lia.
  - destruct (progress_after_event s e j r Hs F) as (r1 & F1 & Hle).
    pose proof (IH _ j r1 r' (rows_ok_event s e Hs) F1 F'). lia.
Qed.

(** C5.  Take any run of the system, a job in it, and the same job at any
    later point of the run: the later progress is at least the earlier
    one.  Progress stays between 0 and 100, and a job whose progress is
    100 has the status [COMPLETED]. *)
Theorem progress_never_decreases :
  forall (events later : list Event) (j : nat) (r r' : JobRow),
    find_job j (run events empty_store) = Some r ->
    find_job j (run later (run events empty_store)) = Some r' ->
    row_progress r <= row_progress r' /\
    0 <= row_progress r <= 100 /\
    (row_progress r = 100 -> row_status r = COMPLETED).
Proof.
  intros events later j r r' F F'.
  pose proof (rows_ok_run events) as Hs.
  split.
  - eapply progress_after_run; eassumption.
  - apply row_ok_bounds.
    apply find_some in F. destruct F as [Hin _].
    rewrite Forall_forall in Hs. now apply Hs.
Qed.
(** *** One running job per document *)

Lemma side_effects_documents (e : Event) (doc : string) (s : Store) :
  documents (side_effects e doc s) = documents s.
Proof.
  destruct e; simpl; try reflexivity.
  destruct (pages_of doc s); reflexivity.
Qed.








Lemma new_job_not_running (jid : nat) (doc : string) :
  is_running (new_job jid doc) = false.
Proof. reflexivity. Qed.









(** *** Evidence *)

Lemma find_app_found {A : Type} (p : A -> bool) (l l' : list A) (x : A) :
  List.find p l = Some x -> List.find p (l ++ l') = Some x.
Proof.
  induction l as [|y l IH]; simpl; [discriminate|].
  destruct (p y); [auto | exact IH].
Qed.

Lemma evidence_ok_more_pages (pgs extra : list Page) (it : BudgetItem) :
  evidence_ok pgs it -> evidence_ok (pgs ++ extra) it.
Proof.
  unfold evidence_ok, cited_page_in, find_page. intros H Hv.
  destruct (H Hv) as (Hne & p & Hp & Hsub).
  split; [exact Hne|]. exists p. split; [|exact Hsub].
  rewrite filter_app. now apply find_app_found.
Qed.

Lemma validate_accepts (c v : CandidateItem) (sourcePages : list Page) :
  validate c sourcePages = inl v ->
  v = c /\
  (c_value c <> None ->
   c_evidence_text c <> "" /\
   exists p, find_page (c_page_number c) sourcePages = Some p /\
             is_substring (c_evidence_text c) (page_text p) = true).
Proof.
  unfold validate.
  destruct (negb _); [discriminate|].
  destruct (negb _); [discriminate|].
  destruct (c_value c) as [x|] eqn:Hv.
  - destruct (find_page (c_page_number c) sourcePages) as [p|];
      [|simpl; discriminate].
    destruct (non_empty (c_evidence_text c)) eqn:Hne; [|simpl; discriminate].
    destruct (is_substring (c_evidence_text c) (page_text p)) eqn:Hsub;
      [|simpl; discriminate].
    simpl. destruct (negb _); [discriminate|].
    intros H. injection H as <-. split; [reflexivity|]. intros _. split.
    + intros E. rewrite E in Hne. discriminate.
    + exists p. split; [reflexivity | exact Hsub].
  - simpl. destruct (negb _); [discriminate|].
    intros H. injection H as <-. split; [reflexivity|]. congruence.
Qed.

Lemma validated_in (cs : list CandidateItem) (sourcePages : list Page)
      (c : CandidateItem) :
  In c (validated cs sourcePages) -> validate c sourcePages = inl c.
Proof.
  induction cs as [|x cs IH]; simpl; [contradiction|].
  destruct (validate x sourcePages) as [v|why] eqn:E; [|exact IH].
  destruct (validate_accepts _ _ _ E) as [-> _].
  intros [<-|Hin]; [exact E | now apply IH].
Qed.

Lemma make_items_in (cs : list CandidateItem) :
  forall (ident : nat) (doc : string) (yr : Z) (it : BudgetItem),
    In it (make_items ident doc yr cs) ->
    exists c n, In c cs /\ it = make_item n doc yr c.
Proof.
  induction cs as [|c cs IH]; simpl; intros ident doc yr it; [contradiction|].
  intros [<-|Hin].
  - exists c, ident. split; [now left | reflexivity].
  - destruct (IH _ _ _ _ Hin) as (c' & n & Hc & ->).
    exists c', n. split; [now right | reflexivity].
Qed.

Lemma evidence_ok_accepted (s s' : Store) (e : Event) :
  Forall (evidence_ok (pages s)) (items s) -> accepted s e s' ->
  Forall (evidence_ok (pages s')) (items s').
Proof.
  intros Hs [doc yr K|doc K|e' j' r r' Ej F J G]; cbn [pages items with_jobs].
  - exact Hs.
  - rewrite Forall_forall in *. intros it Hin.
    apply filter_In in Hin. now apply Hs.
  - destruct e'; try exact Hs.
    + cbn [side_effects]. destruct (pages_of (row_document r) s); [|exact Hs].
      cbn [pages items]. eapply Forall_impl; [|exact Hs].
      intros it. apply evidence_ok_more_pages.
    + cbn [side_effects pages items]. apply Forall_app. split; [exact Hs|].
      rewrite Forall_forall. intros it Hin.
      apply make_items_in in Hin. destruct Hin as (c & n & Hc & ->).
      apply validated_in in Hc.
      destruct (validate_accepts _ _ _ Hc) as [_ Hev].
      unfold evidence_ok, cited_page_in. simpl. intros Hv.
      destruct (Hev Hv) as (Hne & p & Hp & Hsub).
      split; [exact Hne|]. exists p. split; [exact Hp|].
      now apply is_substring_literal.
Qed.

Lemma evidence_ok_run (events : list Event) :
  Forall (evidence_ok (pages (run events empty_store)))
         (items (run events empty_store)).
Proof.
  apply (run_invariant (fun s => Forall (evidence_ok (pages s)) (items s))).
  - intros s e s' Hs Hacc. eapply evidence_ok_accepted; eassumption.
  - constructor.
Qed.

Lemma visible_persisted (s : Store) (it : BudgetItem) :
  visible s it -> In it (items s).
Proof.
  intros [H|[[ident H]|(doc & cat & k & H)]].
  - exact H.
  - unfold getItem in H. now apply find_some in H.
  - unfold getItemsByCategory in H.
    apply (Permutation_in _ (stable_sort_perm _ _)) in H.
    now apply filter_In in H.
Qed.

(** C1.  After any sequence of events, every item that is persisted, and
    so every item the read endpoints return, that has a value carries a
    non-empty evidence text which occurs character for character in the
    text of the page of its document with its source page number. *)
Theorem evidence_is_literal_substring :
  forall (events : list Event) (it : BudgetItem),
    visible (run events empty_store) it ->
    value it <> None ->
    evidence_text it <> "" /\
    exists p,
      cited_page it (run events empty_store) = Some p /\
      literal_substring (evidence_text it) (page_text p).
Proof.
  intros events it Hvis Hv.
  apply visible_persisted in Hvis.
  pose proof (evidence_ok_run events) as Hs.
  rewrite Forall_forall in Hs. exact (Hs it Hvis Hv).
Qed.
End OrchestratorFacts.

(** ** The aggregator's totals *)

Section AggregatorFacts.
Import Server.

Lemma sum_values_non_null (l : list BudgetItem) :
  sum_values l = sum_Z (non_null_values l).
Proof.
  induction l as [|it l IH]; simpl; [reflexivity|].
  rewrite IH. destruct (value it); simpl; lia.
Qed.

Lemma summarize_side_totals (doc : string) (s : Store) :
  let its := filter (fun it => String.eqb (document_id it) doc) (items s) in
  revenue_total (summarize doc s) =
  sum_Z (non_null_values (filter (on_side REVENUE) its)) /\
  expense_total (summarize doc s) =
  sum_Z (non_null_values (filter (on_side EXPENSE) its)).
Proof.
  unfold summarize. simpl. now rewrite !sum_values_non_null.
Qed.
End AggregatorFacts.

(** ** Evaluations on the sample data *)

Section Evaluations.
Import Server ServerProps Sample.

Example health_is_accepted :
  validate health (pages_of "doc" (run upload_to_extraction empty_store)) =
  inl health.
Proof. reflexivity. Qed.

Example misquoted_is_rejected :
  validate misquoted (pages_of "doc" (run upload_to_extraction empty_store)) =
  inr EvidenceNotFound.
Proof. reflexivity. Qed.

Example health_counts_in_summary :
  expense_by_category (summarize "doc" (run half_way empty_store)) =
  [{| cs_category := "Health"; total_value := 500; item_count := 1 |}].
Proof. reflexivity. Qed.

Example disabled_capability_completes :
  items (run disabled_run empty_store) = [] /\
  getJobs "doc" (run disabled_run empty_store) =
  [{| job_id := "0"; status := "COMPLETED"; progress := 100;
      error_message := None |}].
Proof. split; reflexivity. Qed.

Example second_upload_is_refused :
  step (Upload "doc" 2025) (run half_way empty_store) = None /\
  step (Claim 0) (run half_way empty_store) = None.
Proof. split; reflexivity. Qed.

Example percentages :
  DocumentPage.formatPercentage exponent_form 1 3 = "33.3%" /\
  DocumentPage.formatPercentage exponent_form 250 1000 = "25.0%" /\
  DocumentPage.formatPercentage exponent_form 7 0 = "0%" /\
  DocumentPage.formatPercentage exponent_form (-1) 8 = "-12.5%" /\
  DocumentPage.formatPercentage exponent_form 23 80 = "28.7%".
Proof. repeat split; reflexivity. Qed.

Example total_skips_null_and_counts_it :
  let none := {| id := "1"; document_id := "doc"; year := 2024;
                 side := "EXPENSE"; category := "Health";
                 description_original := "Sem valor"; value := None;
                 unit := "EUR"; page_number := 1; evidence_text := "";
                 explanation := "n/d" |} in
  CategoryPage.total [health_item; none] = 500 /\
  CategoryPage.shown_count [health_item; none] = 2 /\
  CategoryPage.total_of_values [Some 500%float; None] = 500%float.
Proof. repeat split; reflexivity. Qed.

Example active_job_of_sample :
  DocumentPage.activeJob (getJobs "doc" (run half_way empty_store)) =
  Some {| job_id := "0"; status := "RUNNING"; progress := 60;
          error_message := None |} /\
  DocumentPage.activeJob (getJobs "doc" (run disabled_run empty_store)) = None.
Proof. split; reflexivity. Qed.

Example null_is_not_zero :
  CategoryPage.formatCurrency euro_plain None "EUR" = "N/A" /\
  CategoryPage.formatCurrency euro_plain (Some 0) "EUR" = "EUR 0".
Proof. split; reflexivity. Qed.

(** C7, at the sample formatter and the value 0. *)
Lemma formatCurrency_NA_iff_null_witness :
  (ItemPage.formatCurrency euro_plain (Some 0) "EUR" = "N/A" <->
   Some 0 = None) /\
  (CategoryPage.formatCurrency euro_plain (Some 0) "EUR" = "N/A" <->
   Some 0 = None) /\
  ItemPage.formatCurrency euro_plain (Some 0) "EUR" = euro_plain 0 /\
  CategoryPage.formatCurrency euro_plain (Some 0) "EUR" = euro_plain 0 /\
  ItemPage.formatCurrency euro_plain None "EUR" <>
  ItemPage.formatCurrency euro_plain (Some 0) "EUR" /\
  CategoryPage.formatCurrency euro_plain None "EUR" <>
  CategoryPage.formatCurrency euro_plain (Some 0) "EUR".
Proof.
  apply (formatCurrency_NA_iff_null euro_plain).
  intros x. unfold euro_plain. simpl. discriminate.
Defined.

(** C5, on the sample job between the end of extraction and the first of
    its two sections. *)
Lemma progress_never_decreases_witness :
  row_progress row_after_extraction <= row_progress row_half_way /\
  0 <= row_progress row_after_extraction <= 100 /\
  (row_progress row_after_extraction = 100 ->
   row_status row_after_extraction = COMPLETED).
Proof.
  apply (progress_never_decreases upload_to_extraction sections_half_way 0).
  - reflexivity.
  - reflexivity.
Defined.

(** C1, on the sample item. *)
Lemma evidence_is_literal_substring_witness :
  evidence_text health_item <> "" /\
  exists p,
    cited_page health_item (run half_way empty_store) = Some p /\
    literal_substring (evidence_text health_item) (page_text p).
Proof.
  apply evidence_is_literal_substring.
  - left. vm_compute. left. reflexivity.
  - discriminate.
Defined.
End Evaluations.

(** * Further properties of the pages *)

(** ** The category total *)

Lemma total_cons (it : BudgetItem) (items : list BudgetItem) :
  CategoryPage.total (it :: items) =
  CategoryPage.value_or_zero (value it) + CategoryPage.total items.
Proof.
  unfold CategoryPage.total. simpl. rewrite fold_left_add_shift. lia.
Qed.



(** X3.  When no item of the category has a value, the header still counts
    every item and shows the formatted amount 0 as the total, the same text
    as for an empty category: in the total a missing value is shown as
    zero, never as 'N/A'. *)
Theorem header_of_valueless_items :
  forall (numberFormat : Z -> string) (items : list BudgetItem),
    (forall it, In it items -> value it = None) ->
    CategoryPage.header numberFormat items =
    (Z.of_nat (List.length items), numberFormat 0) /\
    snd (CategoryPage.header numberFormat items) =
    snd (CategoryPage.header numberFormat []).
Proof.
  intros nf items Hnull.
  assert (Ht : CategoryPage.total items = 0).
  { induction items as [|x items IH]; [reflexivity|].
    rewrite total_cons, IH by (intros it Hi; apply Hnull; now right).
    rewrite (Hnull x) by now left. reflexivity. }
  unfold CategoryPage.header, CategoryPage.formatCurrency,
    CategoryPage.shown_count. cbn [snd]. rewrite Ht. split; reflexivity.
Qed.

Lemma header_of_valueless_items_witness :
  CategoryPage.header Sample.euro_plain [Sample.unreadable_item] =
  (Z.of_nat (List.length [Sample.unreadable_item]), Sample.euro_plain 0) /\
  snd (CategoryPage.header Sample.euro_plain [Sample.unreadable_item]) =
  snd (CategoryPage.header Sample.euro_plain []).
Proof.
  apply header_of_valueless_items.
  intros it [<-|[]]. reflexivity.
Defined.

(** ** The dashboard sort, once more *)

Section StableSortFacts.
Context {A : Type} (leb : A -> A -> bool).

Lemma stable_sort_of_sorted (l : list A) :
  StronglySorted (fun a b => leb a b = true) l -> stable_sort leb l = l.
Proof.
  induction 1 as [|x l Hs IH Hall]; [reflexivity|].
  simpl. rewrite IH. destruct l as [|y l']; [reflexivity|].
  simpl. inversion Hall as [|? ? Hxy _]; subst. now rewrite Hxy.
Qed.

Lemma insert_sorted_keeps_group (p : A -> bool) (x : A) (l : list A) :
  (forall a b, p a = true -> p b = true -> leb a b = true) ->
  filter p (insert_sorted leb x l) = filter p (x :: l).
Proof.
  intros Hp. induction l as [|y l IH]; [reflexivity|].
  cbn [insert_sorted]. destruct (leb x y) eqn:Hxy; [reflexivity|].
  cbn [filter] in *. rewrite IH.
  destruct (p x) eqn:Px; destruct (p y) eqn:Py; try reflexivity.
  rewrite (Hp x y Px Py) in Hxy. discriminate.
Qed.

Lemma stable_sort_keeps_group (p : A -> bool) (l : list A) :
  (forall a b, p a = true -> p b = true -> leb a b = true) ->
  filter p (stable_sort leb l) = filter p l.
Proof.
  intros Hp. induction l as [|x l IH]; [reflexivity|].
  cbn [stable_sort]. rewrite (insert_sorted_keeps_group p x _ Hp).
  cbn [filter]. now rewrite IH.
Qed.
End StableSortFacts.

Lemma js_sort_by_total_again (l : list CategorySummary) :
  js_sort DocumentPage.by_total_desc (js_sort DocumentPage.by_total_desc l) =
  js_sort DocumentPage.by_total_desc l.
Proof.
  unfold js_sort. apply stable_sort_of_sorted. apply stable_sort_sorted.
  - intros a b. unfold DocumentPage.by_total_desc.
    destruct (Z.leb_spec (total_value b - total_value a) 0); [now left|].
    right. apply Z.leb_le. lia.
  - intros a b c H1 H2. unfold DocumentPage.by_total_desc in *.
    apply Z.leb_le in H1, H2. apply Z.leb_le. lia.
Qed.

(** X4.  The sort of the dashboard changes the summary object itself; a
    later render of the same object shows the same two lists, and sorting
    once more leaves the object as it is. *)
Theorem render_sort_is_idempotent :
  forall s : DocumentSummary,
    DocumentPage.shown_revenue (DocumentPage.sorted_in_place s) =
    DocumentPage.shown_revenue s /\
    DocumentPage.shown_expense (DocumentPage.sorted_in_place s) =
    DocumentPage.shown_expense s /\
    DocumentPage.sorted_in_place (DocumentPage.sorted_in_place s) =
    DocumentPage.sorted_in_place s.
Proof.
  intros s.
  assert (R : DocumentPage.shown_revenue (DocumentPage.sorted_in_place s) =
              DocumentPage.shown_revenue s).
  { unfold DocumentPage.shown_revenue at 1. cbn [revenue_by_category
      DocumentPage.sorted_in_place]. apply js_sort_by_total_again. }
  assert (E : DocumentPage.shown_expense (DocumentPage.sorted_in_place s) =
              DocumentPage.shown_expense s).
  { unfold DocumentPage.shown_expense at 1. cbn [expense_by_category
      DocumentPage.sorted_in_place]. apply js_sort_by_total_again. }
  split; [exact R|]. split; [exact E|].
  unfold DocumentPage.sorted_in_place at 1. rewrite R, E. reflexivity.
Qed.

(** X5.  The dashboard sort is stable: the categories that share one total
    are shown in the order in which the summary response lists them. *)
Theorem equal_totals_keep_response_order :
  forall (s : DocumentSummary) (t : Z),
    filter (fun c => total_value c =? t) (DocumentPage.shown_revenue s) =
    filter (fun c => total_value c =? t) (revenue_by_category s) /\
    filter (fun c => total_value c =? t) (DocumentPage.shown_expense s) =
    filter (fun c => total_value c =? t) (expense_by_category s).
Proof.
  intros s t.
  assert (H : forall a b : CategorySummary,
             (total_value a =? t) = true -> (total_value b =? t) = true ->
             (DocumentPage.by_total_desc a b <=? 0) = true).
  { intros a b Ha Hb. apply Z.eqb_eq in Ha, Hb. apply Z.leb_le.
    unfold DocumentPage.by_total_desc. lia. }
  unfold DocumentPage.shown_revenue, DocumentPage.shown_expense, js_sort.
  split; apply stable_sort_keeps_group; exact H.
Qed.

(** ** Percentages at the edges *)

Lemma is_nan_value (x : float) :
  PrimFloat.is_nan x = true <-> Prim2SF x = S754_nan.
Proof.
  unfold PrimFloat.is_nan. rewrite FloatAxioms.eqb_spec.
  destruct (Prim2SF x) as [sign|sign| |sign m e]; unfold SFeqb; simpl.
  - split; discriminate.
  - destruct sign; split; discriminate.
  - split; reflexivity.
  - rewrite Z.compare_refl, Pos.compare_cont_refl.
    destruct sign; split; discriminate.
Qed.





(** X7.  The guard of the percentage catches a side total equal to zero
    only: when the side total is not a number, or the category total is not
    a number and the side total is not zero, the text shown is 'NaN%'. *)
Theorem percentage_of_not_a_number :
  forall (numberToString : Q -> string) (v t : float),
    PrimFloat.is_nan t = true \/
    (PrimFloat.is_nan v = true /\ PrimFloat.eqb t 0 = false) ->
    DocumentPage.formatPercentage numberToString v t = "NaN%".
Proof.
  intros nts v t H. unfold DocumentPage.formatPercentage.
  assert (Ht : PrimFloat.eqb t 0 = false).
  { destruct H as [Hn|[_ Ht]]; [|exact Ht].
    apply is_nan_value in Hn. rewrite FloatAxioms.eqb_spec, Hn. reflexivity. }
  rewrite Ht.
  assert (Ex : Prim2SF (js_mul (js_div v t) 100) = S754_nan).
  { unfold js_mul, js_div. rewrite mul_spec, div_spec. unfold SF64mul, SF64div.
    destruct H as [Hn|[Hn _]]; apply is_nan_value in Hn; rewrite Hn.
    - destruct (Prim2SF v); reflexivity.
    - reflexivity. }
  unfold exact_value. rewrite Ex. reflexivity.
Qed.

Lemma percentage_of_not_a_number_witness :
  DocumentPage.formatPercentage Sample.exponent_form 500 nan = "NaN%".
Proof.
  apply percentage_of_not_a_number. left. reflexivity.
Defined.

(** ** The processing box *)

(** X9.  The active job of the dashboard is the first job of the list whose
    status is 'PENDING' or 'RUNNING': every job listed before it has another
    status; and no job is found exactly when no job of the list has one of
    these two statuses (in particular for the empty list). *)
Theorem activeJob_is_first_active :
  forall job_list : list ImportJob,
    match DocumentPage.activeJob job_list with
    | Some j =>
        exists before after,
          job_list = (before ++ j :: after)%list /\
          (status j = "PENDING" \/ status j = "RUNNING") /\
          forall x, In x before ->
                    status x <> "PENDING" /\ status x <> "RUNNING"
    | None =>
        forall x, In x job_list ->
                  status x <> "PENDING" /\ status x <> "RUNNING"
    end.
Proof.
  intros job_list. unfold DocumentPage.activeJob, js_find.
  assert (Hno : forall x, DocumentPage.is_active x = false ->
                          status x <> "PENDING" /\ status x <> "RUNNING").
  { intros x Hx. split; intros E;
      assert (DocumentPage.is_active x = true)
        by (apply is_active_statuses; auto); congruence. }
  pose proof (find_first DocumentPage.is_active job_list) as H.
  destruct (List.find DocumentPage.is_active job_list) as [j|].
  - destruct H as (before & after & -> & Pj & Hb).
    exists before, after. split; [reflexivity|].
    split; [now apply is_active_statuses|].
    intros x Hx. apply Hno. now apply Hb.
  - intros x Hx. apply Hno. now apply H.
Qed.

(** X10.  When every job of the list is finished, that is none is 'PENDING'
    or 'RUNNING', the dashboard shows no processing box, whatever the error
    messages of the jobs are: the error of a 'FAILED' job is not displayed. *)
Theorem finished_jobs_show_no_box :
  forall job_list : list ImportJob,
    (forall j, In j job_list ->
               status j <> "PENDING" /\ status j <> "RUNNING") ->
    DocumentPage.processing_banner job_list = None.
Proof.
  intros job_list H.
  unfold DocumentPage.processing_banner, DocumentPage.activeJob, js_find.
  rewrite find_none_when_all_fail; [reflexivity|].
  intros j Hj. destruct (DocumentPage.is_active j) eqn:E; [|reflexivity].
  apply is_active_statuses in E. destruct (H j Hj) as [H1 H2].
  destruct E; contradiction.
Qed.

Lemma finished_jobs_show_no_box_witness :
  DocumentPage.processing_banner [Sample.job_failed] = None.
Proof.
  apply finished_jobs_show_no_box.
  intros j [<-|[]]. split; discriminate.
Defined.

(** X11.  A processing box always describes a job of the list that is
    'PENDING' or 'RUNNING': it shows that job's status and progress, and an
    error text only if it is that job's non-empty error message. *)
Theorem box_describes_an_active_job :
  forall (job_list : list ImportJob) (box : DocumentPage.Banner),
    DocumentPage.processing_banner job_list = Some box ->
    exists j,
      In j job_list /\
      (status j = "PENDING" \/ status j = "RUNNING") /\
      DocumentPage.shown_status box = status j /\
      DocumentPage.shown_progress box = progress j /\
      forall m, DocumentPage.shown_error box = Some m ->
                error_message j = Some m /\ m <> "".
Proof.
  intros job_list box.
  unfold DocumentPage.processing_banner, DocumentPage.activeJob, js_find.
  destruct (List.find DocumentPage.is_active job_list) as [j|] eqn:F;
    [|discriminate].
  intros H. injection H as <-. apply find_some in F. destruct F as [Hin Hact].
  exists j. split; [exact Hin|]. split; [now apply is_active_statuses|].
  cbn. split; [reflexivity|]. split; [reflexivity|].
  intros m. unfold DocumentPage.truthy_text.
  destruct (error_message j) as [[|c r]|]; try discriminate.
  intros E. injection E as <-. split; [reflexivity | discriminate].
Qed.

Lemma box_describes_an_active_job_witness :
  exists j,
    In j [Sample.job_failed; Sample.job_running] /\
    (status j = "PENDING" \/ status j = "RUNNING") /\
    DocumentPage.shown_status
      {| DocumentPage.shown_status := "RUNNING";
         DocumentPage.shown_progress := 40;
         DocumentPage.shown_error := Some "section 3 skipped" |} = status j /\
    DocumentPage.shown_progress
      {| DocumentPage.shown_status := "RUNNING";
         DocumentPage.shown_progress := 40;
         DocumentPage.shown_error := Some "section 3 skipped" |} = progress j /\
    forall m,
      DocumentPage.shown_error
        {| DocumentPage.shown_status := "RUNNING";
           DocumentPage.shown_progress := 40;
           DocumentPage.shown_error := Some "section 3 skipped" |} = Some m ->
      error_message j = Some m /\ m <> "".
Proof.
  apply (box_describes_an_active_job [Sample.job_failed; Sample.job_running]).
  reflexivity.
Defined.

(** ** Polling *)

Lemma complete_keeps_loaded (st : DocumentPage.PageState)
      (c : DocumentPage.Completion) :
  DocumentPage.loading st = false ->
  DocumentPage.loading (DocumentPage.complete st c) = false.
Proof. intros H. destruct c; simpl; [reflexivity | exact H]. Qed.

Lemma poll_keeps_loaded (cs : list DocumentPage.Completion) :
  forall st,
    DocumentPage.loading st = false ->
    DocumentPage.loading (DocumentPage.poll cs st) = false.
Proof.
  induction cs as [|c cs IH]; intros st H; simpl; [exact H|].
  apply IH. now apply complete_keeps_loaded.
Qed.

Lemma poll_keeps_summary (cs : list DocumentPage.Completion) :
  forall st,
    DocumentPage.summary st <> None ->
    DocumentPage.summary (DocumentPage.poll cs st) <> None.
Proof.
  induction cs as [|c cs IH]; intros st H; simpl; [exact H|].
  apply IH. destruct c as [[d| |]|r]; simpl; try exact H. discriminate.
Qed.

(** X12.  The document page shows its loading text until the first
    [fetchSummary] has finished, and never again afterwards: finished job
    requests alone leave it loading, and once one summary request has
    finished, with whatever outcome, no later sequence of finished requests
    brings the loading text back. *)
Theorem loading_ends_with_first_summary :
  forall completions : list DocumentPage.Completion,
    ((forall c, In c completions -> exists r, c = DocumentPage.JobsDone r) ->
     DocumentPage.render
       (DocumentPage.poll completions DocumentPage.initial_state) =
     DocumentPage.LoadingScreen) /\
    (forall st r,
        DocumentPage.render
          (DocumentPage.poll completions (DocumentPage.fetchSummary_done r st))
        <> DocumentPage.LoadingScreen).
Proof.
  intros cs. split.
  - intros Hjobs.
    assert (H : forall st, DocumentPage.loading st = true ->
                DocumentPage.loading (DocumentPage.poll cs st) = true).
    { induction cs as [|c cs IH]; intros st Hst; simpl; [exact Hst|].
      apply IH.
      - intros c' Hc'. apply Hjobs. now right.
      - destruct (Hjobs c) as [r ->]; [now left|]. exact Hst. }
    unfold DocumentPage.render. now rewrite H.
  - intros st r. unfold DocumentPage.render.
    rewrite poll_keeps_loaded by reflexivity.
    destruct (DocumentPage.summary _); discriminate.
Qed.

(** X13.  Once the dashboard of a summary is on screen it stays: after any
    sequence of finished requests the page still shows a dashboard, and if
    none of the summary requests in the sequence came back ok (they were
    refused or threw) it is the dashboard of the same summary. *)
Theorem dashboard_survives_failed_polls :
  forall (completions : list DocumentPage.Completion)
         (st : DocumentPage.PageState) (s0 : DocumentSummary),
    DocumentPage.loading st = false ->
    DocumentPage.summary st = Some s0 ->
    (exists s box,
        DocumentPage.render (DocumentPage.poll completions st) =
        DocumentPage.DashboardScreen s box) /\
    ((forall d, ~ In (DocumentPage.SummaryDone (Ok d)) completions) ->
     exists box,
       DocumentPage.render (DocumentPage.poll completions st) =
       DocumentPage.DashboardScreen s0 box).
Proof.
  intros cs st s0 Hl Hs. split.
  - unfold DocumentPage.render. rewrite (poll_keeps_loaded cs st Hl).
    pose proof (poll_keeps_summary cs st) as H.
    destruct (DocumentPage.summary (DocumentPage.poll cs st)) as [s|].
    + eauto.
    + exfalso. apply H; [congruence | reflexivity].
  - intros Hno.
    assert (H : DocumentPage.summary (DocumentPage.poll cs st) = Some s0).
    { revert st Hl Hs. induction cs as [|c cs IH]; intros st Hl Hs; simpl;
        [exact Hs|].
      apply IH.
      - intros d Hd. apply (Hno d). now right.
      - now apply complete_keeps_loaded.
      - destruct c as [[d| |]|r]; simpl; try exact Hs.
        exfalso. apply (Hno d). now left. }
    unfold DocumentPage.render. rewrite (poll_keeps_loaded cs st Hl), H. eauto.
Qed.

Lemma dashboard_survives_failed_polls_witness :
  (exists s box,
      DocumentPage.render
        (DocumentPage.poll
           [DocumentPage.SummaryDone Threw;
            DocumentPage.JobsDone (Ok [Sample.job_running]);
            DocumentPage.SummaryDone NotOk]
           (DocumentPage.fetchSummary_done (Ok Sample.summary_2024)
                                           DocumentPage.initial_state)) =
      DocumentPage.DashboardScreen s box) /\
  ((forall d,
       ~ In (DocumentPage.SummaryDone (Ok d))
            [DocumentPage.SummaryDone Threw;
             DocumentPage.JobsDone (Ok [Sample.job_running]);
             DocumentPage.SummaryDone NotOk]) ->
   exists box,
     DocumentPage.render
       (DocumentPage.poll
          [DocumentPage.SummaryDone Threw;
           DocumentPage.JobsDone (Ok [Sample.job_running]);
           DocumentPage.SummaryDone NotOk]
          (DocumentPage.fetchSummary_done (Ok Sample.summary_2024)
                                          DocumentPage.initial_state)) =
     DocumentPage.DashboardScreen Sample.summary_2024 box).
Proof.
  apply dashboard_survives_failed_polls; reflexivity.
Defined.

(** ** URI components and the category links *)

Ltac each_byte c :=
  destruct c as [[|] [|] [|] [|] [|] [|] [|] [|]].

Lemma unreserved_below_128 (c : ascii) :
  is_unreserved c = true -> (N_of_ascii c < 128)%N.
Proof. each_byte c; intros H; try discriminate H; reflexivity. Qed.

Lemma unescape_plain (c : ascii) (t : string) :
  is_unreserved c = true ->
  unescape (String c t) = option_map (cons (false, c)) (unescape t).
Proof. each_byte c; intros H; try discriminate H; reflexivity. Qed.

Lemma unescape_escaped (c : ascii) (t : string) :
  unescape (percent_encode c ++ t) = option_map (cons (true, c)) (unescape t).
Proof. each_byte c; reflexivity. Qed.

Lemma percent_encode_chars (c ch : ascii) :
  In ch (list_ascii_of_string (percent_encode c)) ->
  is_unreserved ch = true \/ ch = "%"%char.
Proof.
  each_byte c; simpl; intros [<-|[<-|[<-|[]]]]; auto.
Qed.

Lemma list_ascii_of_string_app (a b : string) :
  list_ascii_of_string (a ++ b) =
  (list_ascii_of_string a ++ list_ascii_of_string b)%list.
Proof. induction a as [|c a IH]; simpl; [reflexivity | now rewrite IH]. Qed.

(** The marked bytes the first pass reads back from an encoded string. *)
Lemma unescape_encode (s : string) :
  unescape (encodeURIComponent s) =
  Some (map (fun c => (negb (is_unreserved c), c)) (list_ascii_of_string s)).
Proof.
  induction s as [|c s IH]; [reflexivity|].
  cbn [encodeURIComponent list_ascii_of_string map].
  destruct (is_unreserved c) eqn:U.
  - change (String c "" ++ encodeURIComponent s)
      with (String c (encodeURIComponent s)).
    rewrite (unescape_plain _ _ U), IH. reflexivity.
  - rewrite unescape_escaped, IH. reflexivity.
Qed.

Ltac byte_facts :=
  unfold well_formed2, well_formed3, well_formed4, continuation, byte_in in *;
  repeat match goal with
         | H : _ && _ = true |- _ => apply andb_true_iff in H; destruct H
         | H : _ || _ = true |- _ => apply orb_true_iff in H; destruct H
         | H : (_ <=? _)%N = true |- _ => apply N.leb_le in H
         | H : (_ <? _)%N = false |- _ => apply N.ltb_ge in H
         | H : (_ <? _)%N = true |- _ => apply N.ltb_lt in H
         end.

Lemma in_range (lo hi : N) (c : ascii) :
  (lo <= N_of_ascii c)%N -> (N_of_ascii c <= hi)%N -> byte_in lo hi c = true.
Proof.
  intros H1 H2. unfold byte_in.
  apply andb_true_iff. split; now apply N.leb_le.
Qed.

Lemma out_of_range (lo hi : N) (c : ascii) :
  (N_of_ascii c < lo)%N \/ (hi < N_of_ascii c)%N -> byte_in lo hi c = false.
Proof.
  intros H. unfold byte_in. apply andb_false_iff.
  destruct H; [left | right]; apply N.leb_gt; assumption.
Qed.

Lemma assemble_single (e : bool) (c : ascii) (r : list (bool * ascii)) :
  (N_of_ascii c < 128)%N ->
  assemble ((e, c) :: r) = option_map (String c) (assemble r).
Proof.
  intros H. cbn [assemble]. destruct e; [|reflexivity].
  apply N.ltb_lt in H. now rewrite H.
Qed.

Lemma assemble_pair (c c1 : ascii) (r : list (bool * ascii)) :
  well_formed2 c c1 = true ->
  assemble ((true, c) :: (true, c1) :: r) =
  option_map (fun t => String c (String c1 t)) (assemble r).
Proof.
  intros W. cbn [assemble]. rewrite W.
  assert (H : (N_of_ascii c <? 128)%N = false /\ byte_in 192 223 c = true).
  { byte_facts. split; [apply N.ltb_ge; lia | apply in_range; lia]. }
  destruct H as [-> ->]. reflexivity.
Qed.

Lemma assemble_triple (c c1 c2 : ascii) (r : list (bool * ascii)) :
  well_formed3 c c1 c2 = true ->
  assemble ((true, c) :: (true, c1) :: (true, c2) :: r) =
  option_map (fun t => String c (String c1 (String c2 t))) (assemble r).
Proof.
  intros W. cbn [assemble]. rewrite W.
  assert (H : (N_of_ascii c <? 128)%N = false /\ byte_in 192 223 c = false /\
              byte_in 224 239 c = true).
  { byte_facts;
      (split; [apply N.ltb_ge; lia |
               split; [apply out_of_range; lia | apply in_range; lia]]). }
  destruct H as (-> & -> & ->). reflexivity.
Qed.

Lemma assemble_quad (c c1 c2 c3 : ascii) (r : list (bool * ascii)) :
  well_formed4 c c1 c2 c3 = true ->
  assemble ((true, c) :: (true, c1) :: (true, c2) :: (true, c3) :: r) =
  option_map (fun t => String c (String c1 (String c2 (String c3 t))))
             (assemble r).
Proof.
  intros W. cbn [assemble]. rewrite W.
  assert (H : (N_of_ascii c <? 128)%N = false /\ byte_in 192 223 c = false /\
              byte_in 224 239 c = false /\ byte_in 240 247 c = true).
  { byte_facts;
      (split; [apply N.ltb_ge; lia |
               split; [apply out_of_range; lia |
                       split; [apply out_of_range; lia | apply in_range; lia]]]). }
  destruct H as (-> & -> & -> & ->). reflexivity.
Qed.

Lemma escaped_from_128 (c : ascii) :
  (128 <= N_of_ascii c)%N -> negb (is_unreserved c) = true.
Proof.
  intros H. destruct (is_unreserved c) eqn:U; [|reflexivity].
  apply unreserved_below_128 in U. lia.
Qed.

Lemma continuation_escaped (c : ascii) :
  continuation c = true -> negb (is_unreserved c) = true.
Proof. intros H. apply escaped_from_128. byte_facts. lia. Qed.

Lemma well_formed2_escaped (c c1 : ascii) :
  well_formed2 c c1 = true ->
  negb (is_unreserved c) = true /\ negb (is_unreserved c1) = true.
Proof.
  intros W. split; apply escaped_from_128; byte_facts; lia.
Qed.

Lemma well_formed3_escaped (c c1 c2 : ascii) :
  well_formed3 c c1 c2 = true ->
  negb (is_unreserved c) = true /\ negb (is_unreserved c1) = true /\
  negb (is_unreserved c2) = true.
Proof.
  intros W. repeat split; apply escaped_from_128; byte_facts; lia.
Qed.

Lemma well_formed4_escaped (c c1 c2 c3 : ascii) :
  well_formed4 c c1 c2 c3 = true ->
  negb (is_unreserved c) = true /\ negb (is_unreserved c1) = true /\
  negb (is_unreserved c2) = true /\ negb (is_unreserved c3) = true.
Proof.
  intros W. repeat split; apply escaped_from_128; byte_facts; lia.
Qed.

Lemma assemble_marked (n : nat) :
  forall s : string,
    (String.length s <= n)%nat -> well_formed_utf8 s = true ->
    assemble (map (fun c => (negb (is_unreserved c), c))
                  (list_ascii_of_string s)) = Some s.
Proof.
  induction n as [|n IH]; intros s Hlen W.
  - destruct s; [reflexivity | simpl in Hlen; lia].
  - destruct s as [|c r]; [reflexivity|].
    cbn [well_formed_utf8] in W. cbn [list_ascii_of_string map].
    simpl in Hlen.
    destruct (N.ltb_spec (N_of_ascii c) 128) as [Hc|Hc].
    + rewrite (assemble_single _ _ _ Hc), (IH r) by (auto; lia). reflexivity.
    + destruct r as [|c1 r1]; [discriminate|].
      apply orb_true_iff in W. destruct W as [W|W].
      * apply andb_true_iff in W. destruct W as [W2 Wr].
        destruct (well_formed2_escaped _ _ W2) as [E0 E1].
        cbn [list_ascii_of_string map]. rewrite E0, E1.
        rewrite (assemble_pair _ _ _ W2), (IH r1) by (simpl in *; auto; lia).
        reflexivity.
      * destruct r1 as [|c2 r2]; [discriminate|].
        apply orb_true_iff in W. destruct W as [W|W].
        -- apply andb_true_iff in W. destruct W as [W3 Wr].
           destruct (well_formed3_escaped _ _ _ W3) as (E0 & E1 & E2).
           cbn [list_ascii_of_string map]. rewrite E0, E1, E2.
           rewrite (assemble_triple _ _ _ _ W3), (IH r2)
             by (simpl in *; auto; lia).
           reflexivity.
        -- destruct r2 as [|c3 r3]; [discriminate|].
           apply andb_true_iff in W. destruct W as [W4 Wr].
           destruct (well_formed4_escaped _ _ _ _ W4) as (E0 & E1 & E2 & E3).
           cbn [list_ascii_of_string map]. rewrite E0, E1, E2, E3.
           rewrite (assemble_quad _ _ _ _ _ W4), (IH r3)
             by (simpl in *; auto; lia).
           reflexivity.
Qed.

Lemma decode_encode (s : string) :
  well_formed_utf8 s = true ->
  decodeURIComponent (encodeURIComponent s) = Some s.
Proof.
  intros W. unfold decodeURIComponent. rewrite unescape_encode.
  now apply (assemble_marked (String.length s)).
Qed.

Lemma encode_chars (s : string) (ch : ascii) :
  In ch (list_ascii_of_string (encodeURIComponent s)) ->
  is_unreserved ch = true \/ ch = "%"%char.
Proof.
  induction s as [|c s IH]; [intros []|].
  cbn [encodeURIComponent]. rewrite list_ascii_of_string_app.
  intros H. apply in_app_or in H. destruct H as [H|H]; [|now apply IH].
  destruct (is_unreserved c) eqn:U.
  - simpl in H. destruct H as [<-|[]]. now left.
  - now apply percent_encode_chars in H.
Qed.

Lemma unescape_trailing_percent (n : nat) :
  forall s : string,
    (String.length s <= n)%nat -> unescape (s ++ "%") = None.
Proof.
  induction n as [|n IH]; intros s Hlen.
  - destruct s; [reflexivity | simpl in Hlen; lia].
  - destruct s as [|c r]; [reflexivity|]. simpl in Hlen.
    change (String c r ++ "%") with (String c (r ++ "%")).
    cbn [unescape]. destruct (Ascii.eqb c "%").
    + destruct r as [|h [|l r']]; try reflexivity.
      * simpl. destruct (hex_value h); reflexivity.
      * change (String h (String l r') ++ "%")
          with (String h (String l (r' ++ "%"))).
        cbn iota. destruct (hex_value h); [|reflexivity].
        destruct (hex_value l); [|reflexivity].
        rewrite IH by (simpl in Hlen; lia). reflexivity.
    + rewrite IH by lia. reflexivity.
Qed.

Lemma string_app_cancel (a x y : string) : a ++ x = a ++ y -> x = y.
Proof.
  induction a as [|c a IH]; simpl; intros H; [exact H|].
  injection H as H. now apply IH.
Qed.

(** X14.  A category link of the dashboard leads back to its category: the
    category page decodes the last segment of the link to the category name
    the dashboard encoded, for every name that is a well-formed string. *)
Theorem category_link_round_trip :
  forall cat : CategorySummary,
    well_formed_utf8 (cs_category cat) = true ->
    CategoryPage.category_of_param (DocumentPage.category_segment cat) =
    Some (cs_category cat).
Proof.
  intros cat W.
  unfold CategoryPage.category_of_param, DocumentPage.category_segment.
  now apply decode_encode.
Qed.

Lemma category_link_round_trip_witness :
  CategoryPage.category_of_param (DocumentPage.category_segment Sample.pensions) =
  Some (cs_category Sample.pensions).
Proof. apply category_link_round_trip. reflexivity. Defined.

(** X15.  The last segment of a category link consists of letters, digits,
    the marks [- _ . ! ~ * ' ( )] and percent signs only; so a slash, a
    question mark, a hash, an ampersand or a space in a category name never
    appears in the link as such. *)
Theorem category_segment_is_safe :
  forall cat : CategorySummary,
    Forall (fun ch => (is_unreserved ch = true \/ ch = "%"%char) /\
                      ch <> "/"%char /\ ch <> "?"%char /\ ch <> "#"%char /\
                      ch <> "&"%char /\ ch <> " "%char)
           (list_ascii_of_string (DocumentPage.category_segment cat)).
Proof.
  intros cat. apply Forall_forall. intros ch Hin.
  apply encode_chars in Hin. split; [exact Hin|].
  destruct Hin as [U| ->].
  - repeat split; intros ->; discriminate U.
  - repeat split; discriminate.
Qed.

(** X16.  A category parameter that ends in a percent sign cannot be
    decoded: [decodeURIComponent] throws, whatever precedes the sign. *)
Theorem trailing_percent_is_rejected :
  forall s : string, CategoryPage.category_of_param (s ++ "%") = None.
Proof.
  intros s. unfold CategoryPage.category_of_param, decodeURIComponent.
  now rewrite (unescape_trailing_percent (String.length s) s).
Qed.

(** X17.  Within one document, two categories with different names get
    different links (for names that are well-formed strings). *)
Theorem category_links_are_distinct :
  forall (documentId : string) (c1 c2 : CategorySummary),
    well_formed_utf8 (cs_category c1) = true ->
    well_formed_utf8 (cs_category c2) = true ->
    DocumentPage.category_href documentId c1 =
    DocumentPage.category_href documentId c2 ->
    cs_category c1 = cs_category c2.
Proof.
  intros d c1 c2 W1 W2 H. unfold DocumentPage.category_href in H.
  rewrite <- !string_app_assoc in H. apply string_app_cancel in H.
  unfold DocumentPage.category_segment in H.
  apply (f_equal decodeURIComponent) in H.
  rewrite !decode_encode in H by assumption. now injection H.
Qed.

Lemma category_links_are_distinct_witness :
  cs_category Sample.pensions = cs_category Sample.pensions.
Proof.
  apply (category_links_are_distinct "doc" Sample.pensions Sample.pensions);
    reflexivity.
Defined.

(** X18.  The category page asks the server for the category it was linked
    to: with the last segment of a dashboard link as its parameter, the
    page decodes a name and the address it requests carries that same
    segment again.  The back link of an item of that document and category
    is the dashboard's link. *)
Theorem category_request_matches_link :
  forall (api_base documentId sortBy : string) (cat : CategorySummary),
    well_formed_utf8 (cs_category cat) = true ->
    (exists name,
        CategoryPage.category_of_param (DocumentPage.category_segment cat) =
        Some name /\
        CategoryPage.items_url api_base documentId name sortBy =
        api_base ++ "/api/documents/" ++ documentId ++ "/categories/" ++
        DocumentPage.category_segment cat ++ "?sort_by=" ++ sortBy) /\
    (forall item : BudgetItem,
        document_id item = documentId -> category item = cs_category cat ->
        ItemPage.back_href item = DocumentPage.category_href documentId cat).
Proof.
  intros api_base d k cat W. split.
  - exists (cs_category cat). split; [|reflexivity].
    unfold CategoryPage.category_of_param, DocumentPage.category_segment.
    now apply decode_encode.
  - intros item Hd Hc.
    unfold ItemPage.back_href, DocumentPage.category_href,
      DocumentPage.category_segment.
    now rewrite Hd, Hc.
Qed.

Lemma category_request_matches_link_witness :
  (exists name,
      CategoryPage.category_of_param
        (DocumentPage.category_segment Sample.pensions) = Some name /\
      CategoryPage.items_url "http://localhost:8000" "doc" name "value" =
      "http://localhost:8000" ++ "/api/documents/" ++ "doc" ++ "/categories/" ++
      DocumentPage.category_segment Sample.pensions ++ "?sort_by=" ++ "value") /\
  (forall item : BudgetItem,
      document_id item = "doc" -> category item = cs_category Sample.pensions ->
      ItemPage.back_href item = DocumentPage.category_href "doc" Sample.pensions).
Proof. apply category_request_matches_link. reflexivity. Defined.
